(** * beacon-backend: the GraphQL resolvers, embedded and verified

    A shallow embedding of [src/graphql/resolvers.js] (queries, mutations and
    subscription filters) over an explicit document store and an explicit
    publish log, followed by the properties of the resolvers.

    Conventions of the embedding:
    - a Mongo collection is the list of its documents in insertion order
      ([findOne] answers the first match);
    - an [ObjectId] is written as its hexadecimal string, which is also the
      [id] of the document it refers to; a comparison in the source is
      modelled with the operands it is given there: two strings compare by
      value, an ObjectId and a string compare by value under [==] and [!=]
      only, and an object (an ObjectId or a document) never equals another
      object (see [strict_equals], [loose_equals] and [includes]);
    - a resolver is a function of the store that yields a completion and the
      store it leaves behind; [return new Error(...)] ends the resolver with
      that error object, an uncaught exception ends it as well, and in both
      cases whatever was saved or published before stays;
    - a resolver that reads [user] is given the resolved user document of the
      request context;
    - [console.log] is not modelled. *)

From stdpp Require Import base strings list gmap.
From Stdlib Require Import ZArith.

Local Open Scope Z_scope.
Local Open Scope string_scope.

(** ** Documents *)

Definition ObjectId := string.

(** A point, as [LocationSchema] / the GraphQL location input: coordinates
    are only handed to [isPointWithinRadius], never computed with. *)
Record Location := { lat : Z; lon : Z }.

Module User.
(** [UserSchema] of src/models/user.js; [id] is the document's [_id]. *)
Record doc := {
  id : ObjectId;
  name : string;
  email : option string;
  password : option string;
  location : option Location;
  beacons : list ObjectId;
}.

Definition set_location (u : doc) (l : Location) : doc :=
  {| id := id u; name := name u; email := email u; password := password u;
     location := Some l; beacons := beacons u |}.

(** [user.beacons.push(b)] *)
Definition push_beacon (u : doc) (b : ObjectId) : doc :=
  {| id := id u; name := name u; email := email u; password := password u;
     location := location u; beacons := beacons u ++ [b] |}.
End User.

Module Beacon.
(** Modelled from the spec: the Beacon schema (models/beacon.js is not
    among the sources). The attributes are those of the data model:
    shortcode, leader reference, follower references, current location,
    landmark references and expiry time (milliseconds). *)
Record doc := {
  id : ObjectId;
  shortcode : string;
  leader : ObjectId;
  followers : list ObjectId;
  location : Location;
  landmarks : list ObjectId;
  expiresAt : Z;
}.

Definition set_leader (b : doc) (l : ObjectId) : doc :=
  {| id := id b; shortcode := shortcode b; leader := l;
     followers := followers b; location := location b;
     landmarks := landmarks b; expiresAt := expiresAt b |}.

Definition set_location (b : doc) (l : Location) : doc :=
  {| id := id b; shortcode := shortcode b; leader := leader b;
     followers := followers b; location := l;
     landmarks := landmarks b; expiresAt := expiresAt b |}.

(** [beacon.followers.push(user)] stores the reference to [user]. *)
Definition push_follower (b : doc) (u : ObjectId) : doc :=
  {| id := id b; shortcode := shortcode b; leader := leader b;
     followers := followers b ++ [u]; location := location b;
     landmarks := landmarks b; expiresAt := expiresAt b |}.
End Beacon.

(** ** Events *)

(** The three payload shapes handed to [pubsub.publish]: each sets one of
    the first three fields and [beaconID]; an unset field is [undefined]. *)
Record Payload := {
  beaconLocation : option Location;
  userLocation : option User.doc;
  beaconJoined : option User.doc;
  beaconID : ObjectId;
}.

(** ** The store and the resolver monad *)

Record World := {
  Users : list User.doc;
  Beacons : list Beacon.doc;
  published : list (string * Payload);
}.

(** How a resolver can end otherwise than with a value. The first three are
    error objects the resolvers return; the last three are exceptions:
    reading a property of [null]/[undefined], a document the schema rejects
    on [save], and [bcrypt.compare] called without a hash. *)
Inductive Failure :=
| UserInputError (msg : string)
| AuthenticationError (msg : string)
| Error (msg : string)
| TypeError
| ValidationError
| IllegalArguments.

Inductive Completion (A : Type) :=
| Return (a : A)
| Abort (e : Failure).
Arguments Return {A} a.
Arguments Abort {A} e.

Definition resolver (A : Type) : Type := World → Completion A * World.

#[global] Instance resolver_ret : MRet resolver :=
  λ A a w, (Return a, w).

#[global] Instance resolver_bind : MBind resolver :=
  λ A B k m w,
    match m w with
    | (Return a, w') => k a w'
    | (Abort e, w') => (Abort e, w')
    end.

Definition fail {A} (e : Failure) : resolver A := λ w, (Abort e, w).

(** ** Collections *)

Section Collection.
Context {D : Type} (key : D → ObjectId).

Definition findById (i : ObjectId) (c : list D) : option D :=
  List.find (λ d, bool_decide (key d = i)) c.

(** [doc.save()] on a stored document: the document with that [_id] is
    replaced where it stands. *)
Fixpoint replace (d : D) (c : list D) : list D :=
  match c with
  | [] => []
  | x :: c' =>
      if bool_decide (key x = key d) then d :: c' else x :: replace d c'
  end.
End Collection.

(** [Beacon.findById(id)] *)
Definition Beacon_findById (i : ObjectId) : resolver (option Beacon.doc) :=
  λ w, (Return (findById Beacon.id i (Beacons w)), w).

(** [Beacon.findOne({ shortcode })] *)
Definition Beacon_findOne_shortcode (code : string)
  : resolver (option Beacon.doc) :=
  λ w, (Return (List.find (λ b, bool_decide (Beacon.shortcode b = code))
                          (Beacons w)), w).

(** [Beacon.find(query)] *)
Definition Beacon_find (query : Beacon.doc → bool)
  : resolver (list Beacon.doc) :=
  λ w, (Return (List.filter query (Beacons w)), w).

(** [beacon.save()] of a stored beacon *)
Definition Beacon_save (b : Beacon.doc) : resolver unit :=
  λ w, (Return (), {| Users := Users w;
                      Beacons := replace Beacon.id b (Beacons w);
                      published := published w |}).

(** [beaconDoc.save()] of a new beacon *)
Definition Beacon_insert (b : Beacon.doc) : resolver unit :=
  λ w, (Return (), {| Users := Users w;
                      Beacons := Beacons w ++ [b];
                      published := published w |}).

(** [User.findById(id)] *)
Definition User_findById (i : ObjectId) : resolver (option User.doc) :=
  λ w, (Return (findById User.id i (Users w)), w).

(** [User.findOne({ email })]; [email] is [undefined] when no credentials
    were given. *)
Definition User_findOne_email (e : option string)
  : resolver (option User.doc) :=
  λ w, (Return (List.find (λ u, bool_decide (User.email u = e)) (Users w)), w).

(** [user.save()] *)
Definition User_save (u : User.doc) : resolver unit :=
  λ w, (Return (), {| Users := replace User.id u (Users w);
                      Beacons := Beacons w;
                      published := published w |}).

(** [pubsub.publish(topic, payload)] *)
Definition publish (topic : string) (p : Payload) : resolver unit :=
  λ w, (Return (), {| Users := Users w;
                      Beacons := Beacons w;
                      published := published w ++ [(topic, p)] |}).

(** ** Libraries the resolvers call *)

(** [geolib.isPointWithinRadius(point, center, radius)] and
    [bcrypt.compare(password, hash)]: taken as given. *)
Class Externals := {
  isPointWithinRadius : Location → Location → Z → bool;
  bcrypt_compare : string → string → bool;
}.

(** JavaScript truthiness of a string that may be absent: [undefined],
    [null] and the empty string are falsy. *)
Definition truthy (s : option string) : bool :=
  match s with
  | Some s => negb (String.eqb s "")
  | None => false
  end.

(** Argument of [login]: [AuthPayload]'s email and password. *)
Record Credentials := { cred_email : string; cred_password : string }.

(** What [jwt.sign] is asked to sign: the namespaced claims [anon] and
    [email] (the latter only when truthy) and the options [subject] and
    [expiresIn]; the signature itself is not modelled. *)
Record Token := {
  anon : bool;
  claim_email : option string;
  subject : ObjectId;
  expiresIn : string;
}.

(** ** JavaScript objects as finite maps *)

Inductive Val :=
| VUndefined
| VString (s : string)
| VNumber (z : Z)
| VLocation (l : Location)
| VIds (l : list ObjectId).

(** [o.k], [undefined] when [o] has no key [k]. *)
Definition get (o : gmap string Val) (k : string) : Val :=
  default VUndefined (o !! k).

Definition ids_of (v : option Val) : list ObjectId :=
  match v with
  | Some (VIds l) => l
  | _ => []
  end.

(** Modelled from the spec: the Beacon schema (models/beacon.js is not
    among the sources). [new Beacon(fields)] followed by [save()] keeps the
    schema's paths; a beacon has a leader, a shortcode, a location and an
    expiry time, and the two reference lists start empty unless given. A
    document lacking one of the four, or holding a value of another type
    there, is rejected. *)
Definition new_Beacon (_id : ObjectId) (fields : gmap string Val)
  : option Beacon.doc :=
  match fields !! "leader", fields !! "shortcode",
        fields !! "location", fields !! "expiresAt" with
  | Some (VString l), Some (VString c), Some (VLocation p), Some (VNumber e) =>
      Some {| Beacon.id := _id;
              Beacon.shortcode := c;
              Beacon.leader := l;
              Beacon.followers := ids_of (fields !! "followers");
              Beacon.location := p;
              Beacon.landmarks := ids_of (fields !! "landmarks");
              Beacon.expiresAt := e |}
  | _, _, _, _ => None
  end.

(** ** Comparisons on references *)

(** What the source hands to [===], [!=] and [includes] where it compares
    references: a string (such as [user.id]), an ObjectId (an unpopulated
    reference, such as [beacon.leader] or an element of [beacon.followers])
    or a document (such as [user]), given by its identifier. *)
Inductive Operand :=
| a_string (s : string)
| an_ObjectId (hex : ObjectId)
| a_document (id : ObjectId).

(** [a === b]: no conversion; two strings are equal by value, and an object
    is equal to nothing but itself, which a stored reference and an operand
    of another kind never are. *)
Definition strict_equals (a b : Operand) : bool :=
  match a, b with
  | a_string x, a_string y => String.eqb x y
  | _, _ => false
  end.

(** [a == b]: an ObjectId facing a string is converted to its hexadecimal
    string; two objects are compared as by [===]. *)
Definition loose_equals (a b : Operand) : bool :=
  match a, b with
  | a_string x, a_string y => String.eqb x y
  | a_string x, an_ObjectId y => String.eqb x y
  | an_ObjectId x, a_string y => String.eqb x y
  | _, _ => false
  end.

(** [refs.includes(x)] on an array of references: an ObjectId argument is
    first turned into its string, and the argument is then compared with
    each element by [==]. *)
Definition includes (refs : list ObjectId) (x : Operand) : bool :=
  let x := match x with an_ObjectId hex => a_string hex | _ => x end in
  existsb (λ r, loose_equals x (an_ObjectId r)) refs.

(** ** Queries *)

Module Query.

(** [Query.beacon], resolvers.js lines 20-27. The beacon is returned with
    its landmarks populated, which does not change the document. *)
Definition beacon (id : ObjectId) (user : User.doc) : resolver Beacon.doc :=
  beacon ← Beacon_findById id;
  match beacon with
  | None => fail (UserInputError "No beacon exists with that id.")
  | Some beacon =>
      if strict_equals (an_ObjectId (Beacon.leader beacon))
                       (a_string (User.id user))
         || includes (Beacon.followers beacon) (a_document (User.id user))
      then fail (Error "User should be a part of beacon")
      else mret beacon
  end.

(** The body of the [forEach] of [nearbyBeacons]: [nearby.push(b)] when
    [b] is within 1500 m of [location]. *)
Definition push_if_near `{Externals} (location : Location)
    (nearby : list Beacon.doc) (b : Beacon.doc) : list Beacon.doc :=
  let point := {| lat := lat (Beacon.location b);
                  lon := lon (Beacon.location b) |} in
  if isPointWithinRadius point location 1500 then nearby ++ [b] else nearby.

(** [Query.nearbyBeacons], lines 28-39; [now] is [new Date()]. *)
Definition nearbyBeacons `{Externals} (now : Z) (location : Location)
  : resolver (list Beacon.doc) :=
  beacons ← Beacon_find (λ b, (now <=? Beacon.expiresAt b)%Z);
  mret (fold_left (push_if_near location) beacons []).

End Query.

(** ** Mutations *)

Module Mutation.

(** [Mutation.login], lines 62-97. *)
Definition login `{Externals} (id : option string)
    (credentials : option Credentials) : resolver Token :=
  if negb (truthy id) && negb (bool_decide (is_Some credentials))
  then fail (UserInputError "One of ID and credentials required")
  else
    let email := cred_email <$> credentials in
    user ← (if truthy id then User_findById (default "" id)
            else User_findOne_email email);
    match user with
    | None => fail (Error "User not found.")
    | Some user =>
        if truthy (User.email user)
           && negb (bool_decide (is_Some credentials))
        then fail (UserInputError "Email/password required to login")
        else
          anon ← match credentials with
                 | Some c =>
                     valid ←
                       (if bool_decide (Some (cred_email c) = User.email user)
                        then match User.password user with
                             | Some hash =>
                                 mret (bcrypt_compare (cred_password c) hash)
                             | None => fail IllegalArguments
                             end
                        else mret false);
                     if valid : bool then mret false
                     else fail (AuthenticationError "credentials don't match")
                 | None => mret true
                 end;
          mret {| anon := anon;
                  claim_email := if truthy email then email else None;
                  subject := User.id user;
                  expiresIn := "7d" |}
    end.

(** [Mutation.createBeacon], lines 99-114. [code] is the value [nanoid()]
    yields in this call and [oid] the [_id] given to the new document.
    The object literal lists [leader], [shortcode] and [location] and then
    spreads [beacon], so a key of [beacon] wins over a listed one. *)
Definition createBeacon (code : string) (oid : ObjectId)
    (beacon : gmap string Val) (user : User.doc) : resolver Beacon.doc :=
  let fields : gmap string Val :=
    beacon ∪ {[ "leader" := VString (User.id user);
                "shortcode" := VString code;
                "location" := get beacon "startLocation" ]} in
  match new_Beacon oid fields with
  | None => fail ValidationError
  | Some newBeacon =>
      Beacon_insert newBeacon;;
      User_save (User.push_beacon user (Beacon.id newBeacon));;
      mret newBeacon
  end.

(** [Mutation.joinBeacon], lines 116-131. The payload published on line
    125 holds [user] itself, and line 127 pushes onto [user.beacons] before
    the resolver gives way to anything else: what a subscriber is delivered
    is the user with the beacon pushed. *)
Definition joinBeacon (shortcode : string) (user : User.doc)
  : resolver Beacon.doc :=
  beacon ← Beacon_findOne_shortcode shortcode;
  match beacon with
  | None => fail (UserInputError "No beacon exists with that shortcode.")
  | Some beacon =>
      if includes (Beacon.followers beacon) (a_document (User.id user))
      then fail (Error "Already following the beacon")
      else
        let beacon := Beacon.push_follower beacon (User.id user) in
        let user := User.push_beacon user (Beacon.id beacon) in
        Beacon_save beacon;;
        publish "BEACON_JOINED"
                {| beaconLocation := None; userLocation := None;
                   beaconJoined := Some user;
                   beaconID := Beacon.id beacon |};;
        User_save user;;
        mret beacon
  end.

(** [Mutation.updateBeaconLocation], lines 147-160. The query populates
    [leader]: the reference is replaced by the stored user, or by [null]
    when no such user is stored, and [beacon.leader.id] then throws. *)
Definition updateBeaconLocation (id : ObjectId) (location : Location)
    (user : User.doc) : resolver Beacon.doc :=
  beacon ← Beacon_findById id;
  match beacon with
  | None => fail (UserInputError "No beacon exists with that id.")
  | Some beacon =>
      leader ← User_findById (Beacon.leader beacon);
      match leader with
      | None => fail TypeError
      | Some leader =>
          if bool_decide (User.id leader ≠ User.id user)
          then fail (Error "Only the beacon leader can update beacon location")
          else
            publish "BEACON_LOCATION"
                    {| beaconLocation := Some location; userLocation := None;
                       beaconJoined := None;
                       beaconID := Beacon.id beacon |};;
            let beacon := Beacon.set_location beacon location in
            Beacon_save beacon;;
            mret beacon
      end
  end.

(** [Mutation.updateUserLocation], lines 162-173. *)
Definition updateUserLocation (id : ObjectId) (location : Location)
    (user : User.doc) : resolver User.doc :=
  beacon ← Beacon_findById id;
  match beacon with
  | None => fail (UserInputError "No beacon exists with that id.")
  | Some beacon =>
      let user := User.set_location user location in
      User_save user;;
      publish "USER_LOCATION"
              {| beaconLocation := None; userLocation := Some user;
                 beaconJoined := None;
                 beaconID := Beacon.id beacon |};;
      mret user
  end.

(** [Mutation.changeLeader], lines 175-185. *)
Definition changeLeader (beaconID newLeaderID : ObjectId) (user : User.doc)
  : resolver Beacon.doc :=
  beacon ← Beacon_findById beaconID;
  match beacon with
  | None => fail (UserInputError "No beacon exists with that id.")
  | Some beacon =>
      if bool_decide (Beacon.leader beacon ≠ User.id user)
      then fail (Error "Only the beacon leader can update leader")
      else
        let beacon := Beacon.set_leader beacon newLeaderID in
        Beacon_save beacon;;
        mret beacon
  end.

End Mutation.

(** ** Subscriptions *)

(** [pubsub.asyncIterator(topics)] over the log of what is published while
    the subscription is open: the payloads of those topics, in order. *)
Definition asyncIterator (topics : list string) (log : list (string * Payload))
  : list Payload :=
  snd <$> List.filter (λ e, bool_decide (fst e ∈ topics)) log.

(** [withFilter(iterator, filterFn)]: a payload is delivered when [filterFn]
    answers [true]; it is not when [filterFn] answers [false] or throws. *)
Definition withFilter (topics : list string)
    (filterFn : Payload → Completion bool) (log : list (string * Payload))
  : list Payload :=
  List.filter (λ p, match filterFn p with Return true => true | _ => false end)
              (asyncIterator topics log).

Module Subscription.

(** lines 189-194 *)
Definition beaconLocation (id : ObjectId) :=
  withFilter ["BEACON_LOCATION"]
    (λ payload, Return (bool_decide (beaconID payload = id))).

(** lines 195-202; [user] is the subscriber. *)
Definition userLocation (id : ObjectId) (user : User.doc) :=
  withFilter ["BEACON_LOCATION"]
    (λ payload,
       if bool_decide (beaconID payload = id)
       then match userLocation payload with
            | Some u => Return (bool_decide (User.id u ≠ User.id user))
            | None => Abort TypeError
            end
       else Return false).

(** lines 203-208 *)
Definition beaconJoined (id : ObjectId) :=
  withFilter ["BEACON_JOINED"]
    (λ payload, Return (bool_decide (beaconID payload = id))).

End Subscription.

(** ** A small store to run the resolvers on *)

Definition alice : User.doc :=
  {| User.id := "u1"; User.name := "Alice"; User.email := Some "a@b.com";
     User.password := Some "hash:right"; User.location := None;
     User.beacons := ["b1"] |}.

Definition bob : User.doc :=
  {| User.id := "u2"; User.name := "Bob"; User.email := None;
     User.password := None; User.location := None;
     User.beacons := ["b1"] |}.

Definition carol : User.doc :=
  {| User.id := "u3"; User.name := "Carol"; User.email := None;
     User.password := None; User.location := None;
     User.beacons := [] |}.

(** Beacon [b1]: led by Alice, followed by Bob, expiring at time 2000. *)
Definition hike : Beacon.doc :=
  {| Beacon.id := "b1"; Beacon.shortcode := "ABCDEF"; Beacon.leader := "u1";
     Beacon.followers := ["u2"]; Beacon.location := {| lat := 0; lon := 0 |};
     Beacon.landmarks := []; Beacon.expiresAt := 2000 |}.

Definition world0 : World :=
  {| Users := [alice; bob; carol]; Beacons := [hike]; published := [] |}.

(** Stand-ins for the two library functions, for running examples: a
    distance in the grid of the coordinates, and a hash that prefixes. *)
Definition stub : Externals :=
  {| isPointWithinRadius p c r :=
       (Z.abs (lat p - lat c) + Z.abs (lon p - lon c) <? r)%Z;
     bcrypt_compare pw hash := String.eqb ("hash:" ++ pw) hash |}.

(** A [beacon] argument of [createBeacon] as the schema's input type has
    it, and one that also carries a [leader] key. *)
Definition picnic : gmap string Val :=
  {[ "startLocation" := VLocation {| lat := 5; lon := 7 |};
     "expiresAt" := VNumber 5000 ]}.

Definition picnic_led_by_carol : gmap string Val :=
  <["leader" := VString "u3"]> picnic.

(** What the specification says of [login]: the call fails with a
    validation error unless exactly one of [id] and [credentials] is given. *)
Definition login_exactly_one `{Externals} (id : option string)
    (credentials : option Credentials) (w : World) : Prop :=
  xorb (bool_decide (is_Some id)) (bool_decide (is_Some credentials)) = false →
  ∃ msg w', Mutation.login id credentials w = (Abort (UserInputError msg), w').

(** What the specification says of [createBeacon]: the shortcode of the
    beacon it creates differs from that of every stored beacon that has not
    expired at [now]. *)
Definition createBeacon_unique (now : Z) (code : string) (oid : ObjectId)
    (beacon : gmap string Val) (user : User.doc) (w : World) : Prop :=
  ∀ newBeacon w',
    Mutation.createBeacon code oid beacon user w = (Return newBeacon, w') →
    ∀ b, b ∈ Beacons w → (now ≤ Beacon.expiresAt b)%Z →
         Beacon.shortcode b ≠ Beacon.shortcode newBeacon.

(** The payloads published on "BEACON_LOCATION" have no [userLocation]
    field. *)
Definition beacon_location_payloads (log : list (string * Payload)) : Prop :=
  ∀ p, ("BEACON_LOCATION", p) ∈ log → userLocation p = None.

(** ** The remaining mutations *)

(** [newUser.save()] of a new user *)
Definition User_insert (u : User.doc) : resolver unit :=
  λ w, (Return (), {| Users := Users w ++ [u];
                      Beacons := Beacons w;
                      published := published w |}).

(** [Mutation.register], resolvers.js lines 43-60. [bcrypt_hash] is what
    [bcrypt.hash(_, 10)] computes in this call (the salt is drawn by the
    library) and [oid] the [_id] given to the new document. A new user has
    no location and an empty list of beacons. *)
Definition register (bcrypt_hash : string → string) (oid : ObjectId)
    (name : string) (credentials : option Credentials) : resolver User.doc :=
  taken ← match credentials with
          | Some c =>
              found ← User_findOne_email (Some (cred_email c));
              mret (bool_decide (is_Some found))
          | None => mret false
          end;
  if taken : bool
  then fail (UserInputError "User with email already registered.")
  else
    let newUser :=
      {| User.id := oid;
         User.name := name;
         User.email := cred_email <$> credentials;
         User.password := (λ c, bcrypt_hash (cred_password c)) <$> credentials;
         User.location := None;
         User.beacons := [] |} in
    User_insert newUser;;
    mret newUser.

(** The Landmark model (models/landmark.js) is not among the sources: the
    type of its documents, their [_id], and [new Landmark(fields)] followed
    by [save()], which may reject the fields, are parameters. *)
Class LandmarkSchema := {
  Landmark : Type;
  Landmark_id : Landmark → ObjectId;
  new_Landmark : ObjectId → gmap string Val → option Landmark;
  new_Landmark_id oid fields l :
    new_Landmark oid fields = Some l → Landmark_id l = oid;
}.

(** The store with its collection of landmarks. *)
Record Store `{LandmarkSchema} := {
  world : World;
  Landmarks : list Landmark;
}.

(** [beacon.landmarks.push(id)] *)
Definition Beacon_push_landmark (b : Beacon.doc) (l : ObjectId) : Beacon.doc :=
  {| Beacon.id := Beacon.id b; Beacon.shortcode := Beacon.shortcode b;
     Beacon.leader := Beacon.leader b; Beacon.followers := Beacon.followers b;
     Beacon.location := Beacon.location b;
     Beacon.landmarks := Beacon.landmarks b ++ [l];
     Beacon.expiresAt := Beacon.expiresAt b |}.

(** [Mutation.createLandmark], lines 133-145; [oid] is the [_id] given to
    the new landmark. The object literal lists [createdBy] and then spreads
    [landmark]. *)
Definition createLandmark `{LandmarkSchema} (oid : ObjectId)
    (landmark : gmap string Val) (beaconID : ObjectId) (user : User.doc)
    (s : Store) : Completion Landmark * Store :=
  match findById Beacon.id beaconID (Beacons (world s)) with
  | None => (Abort (UserInputError "User should be part of beacon."), s)
  | Some beacon =>
      if negb (bool_decide (User.id user ∈ Beacon.followers beacon))
         && bool_decide (Beacon.leader beacon ≠ User.id user)
      then (Abort (UserInputError "User should be part of beacon."), s)
      else
        match new_Landmark oid
                (landmark ∪ {[ "createdBy" := VString (User.id user) ]}) with
        | None => (Abort ValidationError, s)
        | Some newLandmark =>
            let beacon :=
              Beacon_push_landmark beacon (Landmark_id newLandmark) in
            (Return newLandmark,
             {| world := snd (Beacon_save beacon (world s));
                Landmarks := Landmarks s ++ [newLandmark] |})
        end
  end.

(** ** Runs of the server *)

(** One state-changing request served for a resolved caller: the context
    holds the stored document of the caller, and the identifier given to a
    new document is that of no stored one. *)
Inductive step `{LandmarkSchema} : World → World → Prop :=
| step_register bcrypt_hash oid name credentials w :
    findById User.id oid (Users w) = None →
    step w (snd (register bcrypt_hash oid name credentials w))
| step_createBeacon code oid beacon user w :
    findById User.id (User.id user) (Users w) = Some user →
    findById Beacon.id oid (Beacons w) = None →
    step w (snd (Mutation.createBeacon code oid beacon user w))
| step_joinBeacon shortcode user w :
    findById User.id (User.id user) (Users w) = Some user →
    step w (snd (Mutation.joinBeacon shortcode user w))
| step_createLandmark oid landmark beaconID user s :
    findById User.id (User.id user) (Users (world s)) = Some user →
    step (world s) (world (snd (createLandmark oid landmark beaconID user s)))
| step_updateBeaconLocation id location user w :
    findById User.id (User.id user) (Users w) = Some user →
    step w (snd (Mutation.updateBeaconLocation id location user w))
| step_updateUserLocation id location user w :
    findById User.id (User.id user) (Users w) = Some user →
    step w (snd (Mutation.updateUserLocation id location user w))
| step_changeLeader beaconID newLeaderID user w :
    findById User.id (User.id user) (Users w) = Some user →
    step w (snd (Mutation.changeLeader beaconID newLeaderID user w)).

(** How a stored beacon may differ from an earlier state of itself: same
    identifier, shortcode and expiry; followers and landmarks added at the
    end. Leader and location are free. *)
Definition Beacon_evolves (b b' : Beacon.doc) : Prop :=
  Beacon.id b' = Beacon.id b
  ∧ Beacon.shortcode b' = Beacon.shortcode b
  ∧ Beacon.expiresAt b' = Beacon.expiresAt b
  ∧ Beacon.followers b `prefix_of` Beacon.followers b'
  ∧ Beacon.landmarks b `prefix_of` Beacon.landmarks b'.

(** How a stored user may differ from an earlier state of itself: same
    identifier, name, email and password hash; beacons added at the end.
    The location is free. *)
Definition User_evolves (u u' : User.doc) : Prop :=
  User.id u' = User.id u
  ∧ User.name u' = User.name u
  ∧ User.email u' = User.email u
  ∧ User.password u' = User.password u
  ∧ User.beacons u `prefix_of` User.beacons u'.

(** A collection grows: its documents are kept in place, each evolved, and
    new ones come after them. *)
Definition grows {D : Type} (R : D → D → Prop) (c c' : list D) : Prop :=
  ∃ kept added, c' = (kept ++ added)%list ∧ Forall2 R c kept.

(** Identifiers are unique in both collections, and so are the emails of
    the users that have one. *)
Definition unique_keys (w : World) : Prop :=
  NoDup (User.id <$> Users w)
  ∧ NoDup (Beacon.id <$> Beacons w)
  ∧ NoDup (omap User.email (Users w)).

(** What one request may do to the users: nothing, save a stored user
    evolved, or add a user under a new identifier, with an email no stored
    user has. *)
Definition Users_step (c c' : list User.doc) : Prop :=
  c' = c
  ∨ (∃ d x, findById User.id (User.id d) c = Some x ∧ User_evolves x d
            ∧ c' = replace User.id d c)
  ∨ (∃ d, findById User.id (User.id d) c = None
          ∧ (∀ u, u ∈ c → is_Some (User.email d) →
                  User.email u ≠ User.email d)
          ∧ c' = (c ++ [d])%list).

(** What one request may do to the beacons: nothing, save a stored beacon
    evolved, or add a beacon under a new identifier. *)
Definition Beacons_step (c c' : list Beacon.doc) : Prop :=
  c' = c
  ∨ (∃ d x, findById Beacon.id (Beacon.id d) c = Some x ∧ Beacon_evolves x d
            ∧ c' = replace Beacon.id d c)
  ∨ (∃ d, findById Beacon.id (Beacon.id d) c = None ∧ c' = (c ++ [d])%list).

(** What a run of the server keeps: unique identifiers and emails, every
    stored document in its place, evolved, and everything published. *)
Definition keeps (w w' : World) : Prop :=
  unique_keys w'
  ∧ grows Beacon_evolves (Beacons w) (Beacons w')
  ∧ grows User_evolves (Users w) (Users w')
  ∧ published w `prefix_of` published w'.

(** [login] from line 68 on, once the user has been looked up. *)
Definition login_found `{Externals} (credentials : option Credentials)
    (user : option User.doc) : resolver Token :=
  match user with
  | None => fail (Error "User not found.")
  | Some user =>
      if truthy (User.email user)
         && negb (bool_decide (is_Some credentials))
      then fail (UserInputError "Email/password required to login")
      else
        anon ← match credentials with
               | Some c =>
                   valid ←
                     (if bool_decide (Some (cred_email c) = User.email user)
                      then match User.password user with
                           | Some hash =>
                               mret (bcrypt_compare (cred_password c) hash)
                           | None => fail IllegalArguments
                           end
                      else mret false);
                   if valid : bool then mret false
                   else fail (AuthenticationError "credentials don't match")
               | None => mret true
               end;
        mret {| anon := anon;
                claim_email := if truthy (cred_email <$> credentials)
                               then cred_email <$> credentials else None;
                subject := User.id user;
                expiresIn := "7d" |}
  end.

(** A request that fails leaves no trace. *)
Definition leaves_no_trace {A : Type} (m : resolver A) : Prop :=
  ∀ w e w', m w = (Abort e, w') → w' = w.

(** A stand-in for the Landmark model, for running examples: a landmark is
    its identifier with the fields it was built from, and it is accepted
    when it has a location. *)
Definition stub_landmarks : LandmarkSchema.
Proof.
  refine {| Landmark := ObjectId * gmap string Val;
            Landmark_id := fst;
            new_Landmark oid fields :=
              match fields !! "location" with
              | Some (VLocation _) => Some (oid, fields)
              | _ => None
              end |}.
  intros oid fields l. destruct (fields !! "location") as [[]|]; try done.
  by intros [= <-].
Defined.

(** * Properties *)

(** ** Collections *)

Section CollectionFacts.
Context {D : Type} (key : D → ObjectId).

Lemma findById_key i c d : findById key i c = Some d → key d = i.
Proof.
  unfold findById. intros Hf. apply find_some in Hf as [_ Hk].
  by apply bool_decide_eq_true in Hk.
Qed.

Lemma findById_elem i c d : findById key i c = Some d → d ∈ c.
Proof.
  unfold findById. intros Hf. apply find_some in Hf as [Hin _].
  by apply list_elem_of_In.
Qed.

(** Saving a document under the identifier it was found by makes it the
    document found. *)
Lemma findById_replace_eq d c b :
  findById key (key d) c = Some b →
  findById key (key d) (replace key d c) = Some d.
Proof.
  unfold findById. induction c as [|x c IH]; simpl; [done|].
  destruct (bool_decide (key x = key d)) eqn:Hx; simpl.
  - intros _. by rewrite bool_decide_eq_true_2.
  - rewrite Hx. exact IH.
Qed.

(** Saving a document leaves every other identifier as it was. *)
Lemma findById_replace_ne d c i :
  i ≠ key d → findById key i (replace key d c) = findById key i c.
Proof.
  unfold findById. intros Hne. induction c as [|x c IH]; simpl; [done|].
  destruct (bool_decide (key x = key d)) eqn:Hx; simpl.
  - apply bool_decide_eq_true in Hx.
    rewrite !bool_decide_eq_false_2; [done|congruence|congruence].
  - by rewrite IH.
Qed.

(** A query that found a document finds its saved version, when the
    saved version still matches the query. *)
Lemma find_replace (P : D → bool) d c b :
  List.find P c = Some b → key b = key d → P d = true →
  List.find P (replace key d c) = Some d.
Proof.
  intros Hf Hk Hd. induction c as [|x c IH]; simpl in *; [done|].
  destruct (P x) eqn:Hx.
  - injection Hf as ->. rewrite bool_decide_eq_true_2; [|done].
    simpl. by rewrite Hd.
  - destruct (bool_decide (key x = key d)); simpl.
    + by rewrite Hd.
    + rewrite Hx. by apply IH.
Qed.

Lemma find_none_elem (P : D → bool) c :
  (∀ x, x ∈ c → P x = false) → List.find P c = None.
Proof.
  induction c as [|x c IH]; simpl; [done|]. intros Hall.
  rewrite (Hall x); [|by left]. apply IH. intros y Hy. apply Hall. by right.
Qed.
End CollectionFacts.

(** Unfolds the store primitives and the bind of the resolver monad. *)
Ltac run :=
  unfold mbind, resolver_bind, mret, resolver_ret, fail,
    Beacon_findById, Beacon_findOne_shortcode, Beacon_find, Beacon_save,
    Beacon_insert, User_findById, User_findOne_email, User_save, publish;
  simpl.

(** ** Query.beacon *)

(** An array of references includes no document: the document is an
    object and is compared with each ObjectId as one. *)
Lemma includes_document (refs : list ObjectId) (i : ObjectId) :
  includes refs (a_document i) = false.
Proof. unfold includes. by induction refs. Qed.

(** Neither test of the guard of [Query.beacon] can hold: [beacon.leader]
    is an ObjectId and [user.id] a string, and [user] is a document. For a
    stored beacon the error branch is never taken and every caller is
    given the beacon. *)
Lemma beacon_serves_every_caller (id : ObjectId) (user : User.doc) (w : World)
    (b : Beacon.doc) :
  findById Beacon.id id (Beacons w) = Some b →
  Query.beacon id user w = (Return b, w).
Proof.
  intros Hb. unfold Query.beacon. run. rewrite Hb.
  by rewrite includes_document.
Qed.

(** C1, evaluated on the store [world0] and its beacon [b1], led by Alice
    and followed by Bob: Carol, who is neither, is given the beacon, where
    the claim says she gets an authorization-style error. Alice and Bob
    are given it too: the query refuses nobody. *)
Theorem beacon_serves_outsider :
  Query.beacon "b1" carol world0 = (Return hike, world0)
  ∧ Query.beacon "b1" alice world0 = (Return hike, world0)
  ∧ Query.beacon "b1" bob world0 = (Return hike, world0).
Proof. repeat split; vm_compute; reflexivity. Qed.

(** ** Query.nearbyBeacons *)

(** The [forEach] loop that pushes onto [nearby] is a filter. *)
Lemma push_if_near_filter `{Externals} (location : Location)
    (beacons acc : list Beacon.doc) :
  fold_left (Query.push_if_near location) beacons acc
  = (acc ++ List.filter
              (λ b, isPointWithinRadius (Beacon.location b) location 1500)
              beacons)%list.
Proof.
  revert acc. induction beacons as [|b beacons IH]; intros acc; simpl.
  - by rewrite app_nil_r.
  - rewrite IH. unfold Query.push_if_near.
    destruct (Beacon.location b) as [la lo]; simpl.
    destruct (isPointWithinRadius _ location 1500); [|done].
    by rewrite <- app_assoc.
Qed.

(** C7: [nearbyBeacons] always answers, leaves the store as it is, and its
    answer holds exactly the stored beacons that have not expired at the
    time of the call ([expiresAt >= now]) and whose location is within 1500
    of the query point, in the order of the store; so no beacon whose
    [expiresAt] is in the past is in it. *)
Theorem nearbyBeacons_active_within_radius `{Externals} (now : Z)
    (location : Location) (w : World) :
  ∃ nearby,
    Query.nearbyBeacons now location w = (Return nearby, w)
    ∧ nearby
      = List.filter
          (λ b, isPointWithinRadius (Beacon.location b) location 1500)
          (List.filter (λ b, (now <=? Beacon.expiresAt b)%Z) (Beacons w))
    ∧ (∀ b, b ∈ nearby ↔
            b ∈ Beacons w
            ∧ (now ≤ Beacon.expiresAt b)%Z
            ∧ isPointWithinRadius (Beacon.location b) location 1500 = true)
    ∧ (∀ b, b ∈ nearby → ¬ (Beacon.expiresAt b < now)%Z).
Proof.
  eexists. split.
  { unfold Query.nearbyBeacons. run. rewrite push_if_near_filter. done. }
  split; [done|].
  assert (Hiff : ∀ b,
    b ∈ List.filter
          (λ b, isPointWithinRadius (Beacon.location b) location 1500)
          (List.filter (λ b, (now <=? Beacon.expiresAt b)%Z) (Beacons w))
    ↔ b ∈ Beacons w ∧ (now ≤ Beacon.expiresAt b)%Z
      ∧ isPointWithinRadius (Beacon.location b) location 1500 = true).
  { intros b. rewrite !list_elem_of_In, !filter_In, Z.leb_le. tauto. }
  split; [exact Hiff|].
  intros b Hb. apply Hiff in Hb as (_ & Hle & _). lia.
Qed.

(** ** Mutation.updateBeaconLocation *)

(** When the caller's id is not the leader reference of the stored beacon,
    [updateBeaconLocation] ends with a failure and leaves the whole store,
    its publish log included, as it found it: nothing is published and the
    beacon keeps its location. The failure is the error "Only the beacon
    leader can update beacon location" whenever the leader reference
    resolves to a stored user; with a dangling reference the populated
    leader is [null] and reading its id throws. *)
Theorem updateBeaconLocation_non_leader (id : ObjectId) (location : Location)
    (user : User.doc) (w : World) (b : Beacon.doc) :
  findById Beacon.id id (Beacons w) = Some b →
  Beacon.leader b ≠ User.id user →
  ∃ e,
    Mutation.updateBeaconLocation id location user w = (Abort e, w)
    ∧ (is_Some (findById User.id (Beacon.leader b) (Users w)) →
       e = Error "Only the beacon leader can update beacon location")
    ∧ (findById User.id (Beacon.leader b) (Users w) = None → e = TypeError).
Proof.
  intros Hb Hne. unfold Mutation.updateBeaconLocation. run. rewrite Hb.
  destruct (findById User.id (Beacon.leader b) (Users w)) as [l|] eqn:Hl.
  - apply findById_key in Hl.
    rewrite bool_decide_eq_true_2; [|congruence].
    eexists. split; [done|]. split; [done|]. intros; discriminate.
  - eexists. split; [done|]. split; [|done]. intros [? ?]; discriminate.
Qed.

Lemma updateBeaconLocation_non_leader_witness :
  ∃ e,
    Mutation.updateBeaconLocation "b1" {| lat := 3; lon := 4 |} bob world0
    = (Abort e, world0)
    ∧ e = Error "Only the beacon leader can update beacon location".
Proof.
  destruct (updateBeaconLocation_non_leader "b1" {| lat := 3; lon := 4 |}
              bob world0 hike) as (e & Hrun & Herr & _).
  - reflexivity.
  - discriminate.
  - exists e. split; [exact Hrun|]. apply Herr. eexists. reflexivity.
Defined.

(** C4, evaluated on a store the resolvers themselves produce: Alice, the
    leader of [b1], makes "u9" its leader, the id of no user, which
    [changeLeader] accepts. Bob, who is not the leader, then calls
    [updateBeaconLocation]: nothing is published and the location is
    unchanged, as the claim says, but the call does not end with the
    authorization error; the populated leader is [null] and reading its id
    on line 151 throws. *)
Theorem updateBeaconLocation_throws_on_dangling_leader :
  let w1 := snd (Mutation.changeLeader "b1" "u9" alice world0) in
  findById Beacon.id "b1" (Beacons w1) = Some (Beacon.set_leader hike "u9")
  ∧ Beacon.leader (Beacon.set_leader hike "u9") ≠ User.id bob
  ∧ findById User.id "u9" (Users w1) = None
  ∧ Mutation.updateBeaconLocation "b1" {| lat := 3; lon := 4 |} bob w1
    = (Abort TypeError, w1).
Proof.
  split; [reflexivity|]. split; [discriminate|]. split; reflexivity.
Qed.

(** ** Mutation.changeLeader *)

(** C8: on a stored beacon led by the caller, [changeLeader] answers the
    beacon with [leader] set to [newLeaderID] and every other field as it
    was, [followers] included; that beacon is what the store then holds
    under the id, every other beacon, every user and the publish log are
    untouched. When the caller is not the leader the call ends with the
    error and the store is unchanged. *)
Theorem changeLeader_only_leader_changes (beaconID newLeaderID : ObjectId)
    (user : User.doc) (w : World) (b : Beacon.doc) :
  findById Beacon.id beaconID (Beacons w) = Some b →
  (Beacon.leader b = User.id user →
   ∃ b' w',
     Mutation.changeLeader beaconID newLeaderID user w = (Return b', w')
     ∧ Beacon.leader b' = newLeaderID
     ∧ Beacon.followers b' = Beacon.followers b
     ∧ Beacon.id b' = Beacon.id b
     ∧ Beacon.shortcode b' = Beacon.shortcode b
     ∧ Beacon.location b' = Beacon.location b
     ∧ Beacon.landmarks b' = Beacon.landmarks b
     ∧ Beacon.expiresAt b' = Beacon.expiresAt b
     ∧ findById Beacon.id beaconID (Beacons w') = Some b'
     ∧ (∀ i, i ≠ beaconID →
             findById Beacon.id i (Beacons w') = findById Beacon.id i (Beacons w))
     ∧ length (Beacons w') = length (Beacons w)
     ∧ Users w' = Users w
     ∧ published w' = published w)
  ∧ (Beacon.leader b ≠ User.id user →
     Mutation.changeLeader beaconID newLeaderID user w
     = (Abort (Error "Only the beacon leader can update leader"), w)).
Proof.
  intros Hb. pose proof (findById_key _ _ _ _ Hb) as Hid.
  unfold Mutation.changeLeader. run. rewrite Hb. split.
  - intros Hl. rewrite bool_decide_eq_false_2; [|by intros []].
    eexists _, _. split; [reflexivity|]. simpl.
    repeat (split; [reflexivity|]).
    change (Beacon.id b) with (Beacon.id (Beacon.set_leader b newLeaderID)) in Hid.
    split; [|split; [|split; [|done]]].
    + rewrite <- Hid in Hb |- *. by eapply findById_replace_eq.
    + intros i Hi. apply findById_replace_ne. congruence.
    + clear. induction (Beacons w) as [|x c IH]; simpl; [done|].
      destruct (bool_decide _); simpl; [done|]. by rewrite IH.
  - intros Hl. by rewrite bool_decide_eq_true_2.
Qed.

Lemma changeLeader_only_leader_changes_witness :
  (∃ b' w',
     Mutation.changeLeader "b1" "u3" alice world0 = (Return b', w')
     ∧ Beacon.leader b' = "u3"
     ∧ Beacon.followers b' = ["u2"]
     ∧ findById Beacon.id "b1" (Beacons w') = Some b')
  ∧ Mutation.changeLeader "b1" "u3" bob world0
    = (Abort (Error "Only the beacon leader can update leader"), world0).
Proof.
  split.
  - destruct (proj1 (changeLeader_only_leader_changes "b1" "u3" alice world0
                       hike eq_refl) eq_refl)
      as (b' & w' & Hrun & Hl & Hf & _ & _ & _ & _ & _ & Hs & _).
    exists b', w'. repeat split; assumption.
  - apply (proj2 (changeLeader_only_leader_changes "b1" "u3" bob world0
                    hike eq_refl)).
    discriminate.
Defined.

(** ** Mutation.joinBeacon *)

(** The guard of line 120 hands the document [user] to [includes] and so
    never holds: whenever the shortcode resolves, [joinBeacon] goes
    through, appends the caller to the followers, publishes, and appends
    the beacon to the caller's beacons. *)
Lemma joinBeacon_accepts (shortcode : string) (user : User.doc) (w : World)
    (b : Beacon.doc) :
  List.find (λ b, bool_decide (Beacon.shortcode b = shortcode)) (Beacons w)
  = Some b →
  let b' := Beacon.push_follower b (User.id user) in
  let user' := User.push_beacon user (Beacon.id b) in
  Mutation.joinBeacon shortcode user w
  = (Return b',
     {| Users := replace User.id user' (Users w);
        Beacons := replace Beacon.id b' (Beacons w);
        published :=
          published w
          ++ [("BEACON_JOINED",
               {| beaconLocation := None; userLocation := None;
                  beaconJoined := Some user'; beaconID := Beacon.id b |})] |}).
Proof.
  intros Hb. unfold Mutation.joinBeacon. run. rewrite Hb.
  by rewrite includes_document.
Qed.

(** A user who is already among the followers of the beacon is not
    refused: the join succeeds and the followers then hold the user
    twice. *)
Lemma joinBeacon_follower_joins_again (shortcode : string) (user : User.doc)
    (w : World) (b : Beacon.doc) :
  List.find (λ b, bool_decide (Beacon.shortcode b = shortcode)) (Beacons w)
  = Some b →
  User.id user ∈ Beacon.followers b →
  ∃ w', Mutation.joinBeacon shortcode user w
        = (Return (Beacon.push_follower b (User.id user)), w')
        ∧ ¬ NoDup (Beacon.followers (Beacon.push_follower b (User.id user))).
Proof.
  intros Hb Hin. rewrite (joinBeacon_accepts _ _ _ _ Hb).
  eexists. split; [done|]. simpl. intros Hnd.
  apply NoDup_app in Hnd as (_ & Hdisj & _).
  apply (Hdisj _ Hin). by left.
Qed.

(** C6, evaluated on the store [world0]: Carol joins with the shortcode of
    [b1] and then, her context holding her stored document, joins again.
    The second call is not refused: it answers the beacon with Carol
    twice among its followers, the store holds that beacon, and a second
    payload is published. The claim says the second call returns an error
    and that no duplicate is added. *)
Theorem joinBeacon_second_call_adds_duplicate :
  let w1 := snd (Mutation.joinBeacon "ABCDEF" carol world0) in
  let carol1 := User.push_beacon carol "b1" in
  let '(answer, w2) := Mutation.joinBeacon "ABCDEF" carol1 w1 in
  findById User.id "u3" (Users w1) = Some carol1
  ∧ answer
    = Return {| Beacon.id := "b1"; Beacon.shortcode := "ABCDEF";
                Beacon.leader := "u1";
                Beacon.followers := ["u2"; "u3"; "u3"];
                Beacon.location := {| lat := 0; lon := 0 |};
                Beacon.landmarks := []; Beacon.expiresAt := 2000 |}
  ∧ Beacon.followers <$> findById Beacon.id "b1" (Beacons w2)
    = Some ["u2"; "u3"; "u3"]
  ∧ fst <$> published w2 = ["BEACON_JOINED"; "BEACON_JOINED"].
Proof. vm_compute. repeat split; reflexivity. Qed.

(** ** Mutation.login *)

(** The specification's reading of [login] fails on the store [world0]:
    given both Alice's id and her credentials, [login] issues a token. *)
Lemma login_with_id_and_credentials_succeeds :
  ¬ @login_exactly_one stub (Some "u1")
      (Some {| cred_email := "a@b.com"; cred_password := "right" |}) world0.
Proof.
  unfold login_exactly_one. intros Hclaim.
  destruct Hclaim as (msg & w' & Hrun); [reflexivity|].
  vm_compute in Hrun. discriminate Hrun.
Qed.

(** C5, as the code has it: with no truthy [id] and no [credentials],
    [login] ends with the validation error "One of ID and credentials
    required". With both a non-empty [id] and [credentials] it goes on: the
    user is looked up by the id, and the answer is "User not found." when
    there is none. When the credentials carry the email of the user found,
    the outcome is decided by the password check against the stored hash,
    a token for the user (not anonymous) or the authentication error
    "credentials don't match" (and the check throws when the user has no
    stored hash); when they carry another email, or the user has none, the
    answer is that authentication error. The store is not written. *)
Theorem login_needs_id_or_credentials `{Externals} (w : World) :
  (∀ id, truthy id = false →
     Mutation.login id None w
     = (Abort (UserInputError "One of ID and credentials required"), w))
  ∧ (∀ i c user hash,
       i ≠ "" →
       findById User.id i (Users w) = Some user →
       User.email user = Some (cred_email c) →
       User.password user = Some hash →
       Mutation.login (Some i) (Some c) w
       = (if bcrypt_compare (cred_password c) hash
          then Return {| anon := false;
                         claim_email :=
                           if truthy (Some (cred_email c))
                           then Some (cred_email c) else None;
                         subject := User.id user;
                         expiresIn := "7d" |}
          else Abort (AuthenticationError "credentials don't match"), w))
  ∧ (∀ i c user,
       i ≠ "" →
       findById User.id i (Users w) = Some user →
       User.email user ≠ Some (cred_email c) →
       Mutation.login (Some i) (Some c) w
       = (Abort (AuthenticationError "credentials don't match"), w))
  ∧ (∀ i c user,
       i ≠ "" →
       findById User.id i (Users w) = Some user →
       User.email user = Some (cred_email c) →
       User.password user = None →
       Mutation.login (Some i) (Some c) w = (Abort IllegalArguments, w))
  ∧ (∀ i c,
       i ≠ "" →
       findById User.id i (Users w) = None →
       Mutation.login (Some i) (Some c) w
       = (Abort (Error "User not found."), w)).
Proof.
  assert (Ht : ∀ i : string, i ≠ "" → truthy (Some i) = true).
  { intros i Hi. simpl. apply negb_true_iff. by apply String.eqb_neq. }
  split; [|split; [|split; [|split]]].
  - intros id Hid. unfold Mutation.login. rewrite Hid. simpl. done.
  - intros i c user hash Hi Hu He Hp. unfold Mutation.login.
    rewrite (Ht i Hi). run. rewrite Hu, He, Hp.
    rewrite bool_decide_eq_true_2; [|done].
    rewrite andb_false_r.
    by destruct (bcrypt_compare (cred_password c) hash).
  - intros i c user Hi Hu He. unfold Mutation.login.
    rewrite (Ht i Hi). run. rewrite Hu.
    rewrite andb_false_r.
    rewrite bool_decide_eq_false_2; [done|congruence].
  - intros i c user Hi Hu He Hp. unfold Mutation.login.
    rewrite (Ht i Hi). run. rewrite Hu, He, Hp.
    rewrite bool_decide_eq_true_2; [|done].
    by rewrite andb_false_r.
  - intros i c Hi Hu. unfold Mutation.login.
    rewrite (Ht i Hi). run. by rewrite Hu.
Qed.

Lemma login_needs_id_or_credentials_witness :
  @Mutation.login stub (Some "") None world0
  = (Abort (UserInputError "One of ID and credentials required"), world0)
  ∧ @Mutation.login stub (Some "u1")
      (Some {| cred_email := "a@b.com"; cred_password := "right" |}) world0
    = (Return {| anon := false; claim_email := Some "a@b.com";
                 subject := "u1"; expiresIn := "7d" |}, world0)
  ∧ @Mutation.login stub (Some "u1")
      (Some {| cred_email := "x@y.com"; cred_password := "right" |}) world0
    = (Abort (AuthenticationError "credentials don't match"), world0)
  ∧ @Mutation.login stub (Some "u9")
      (Some {| cred_email := "a@b.com"; cred_password := "right" |}) world0
    = (Abort (Error "User not found."), world0).
Proof.
  pose proof (@login_needs_id_or_credentials stub world0)
    as (Hnone & Hmatch & Hother & _ & Hnobody).
  split; [|split; [|split]].
  - apply (Hnone (Some "")). reflexivity.
  - apply (Hmatch "u1"
             {| cred_email := "a@b.com"; cred_password := "right" |}
             alice "hash:right").
    + discriminate.
    + reflexivity.
    + reflexivity.
    + reflexivity.
  - apply (Hother "u1"
             {| cred_email := "x@y.com"; cred_password := "right" |} alice).
    + discriminate.
    + reflexivity.
    + discriminate.
  - apply (Hnobody "u9"
             {| cred_email := "a@b.com"; cred_password := "right" |}).
    + discriminate.
    + reflexivity.
Defined.

(** C10: a [login] that names nobody ends with an error object and issues
    no token. Either the (non-empty) [id] is that of no stored user, and
    the error is "User not found."; or the email of the [credentials] is
    that of no stored user, and the error is "User not found." when the
    lookup goes by email, or "credentials don't match" when an [id] given
    besides found a user. The store is unchanged. *)
Theorem login_unknown_user `{Externals} (id : option string)
    (credentials : option Credentials) (w : World) :
  (∃ i, id = Some i ∧ i ≠ "" ∧ findById User.id i (Users w) = None)
  ∨ (∃ c, credentials = Some c
          ∧ ∀ u, u ∈ Users w → User.email u ≠ Some (cred_email c)) →
  Mutation.login id credentials w = (Abort (Error "User not found."), w)
  ∨ Mutation.login id credentials w
    = (Abort (AuthenticationError "credentials don't match"), w).
Proof.
  intros [(i & -> & Hi & Hnone)|(c & -> & Hnone)].
  - left. unfold Mutation.login.
    assert (Ht : truthy (Some i) = true).
    { simpl. apply negb_true_iff. by apply String.eqb_neq. }
    rewrite Ht. run. by rewrite Hnone.
  - unfold Mutation.login. rewrite andb_false_r. run.
    destruct (truthy id) eqn:Ht; simpl.
    + destruct (findById User.id (default "" id) (Users w)) as [u|] eqn:Hu;
        [|by left].
      right. rewrite andb_false_r.
      apply findById_elem in Hu. apply Hnone in Hu.
      rewrite bool_decide_eq_false_2; [done|]. congruence.
    + left. rewrite find_none_elem; [done|].
      intros u Hu. apply bool_decide_eq_false_2. by apply Hnone.
Qed.

Lemma login_unknown_user_witness :
  (@Mutation.login stub (Some "u9") None world0
   = (Abort (Error "User not found."), world0)
   ∨ @Mutation.login stub (Some "u9") None world0
     = (Abort (AuthenticationError "credentials don't match"), world0))
  ∧ (@Mutation.login stub None
       (Some {| cred_email := "x@y.com"; cred_password := "right" |}) world0
     = (Abort (Error "User not found."), world0)
     ∨ @Mutation.login stub None
         (Some {| cred_email := "x@y.com"; cred_password := "right" |}) world0
       = (Abort (AuthenticationError "credentials don't match"), world0)).
Proof.
  split.
  - apply (@login_unknown_user stub (Some "u9") None world0).
    left. exists "u9". split; [reflexivity|]. split; [discriminate|reflexivity].
  - apply (@login_unknown_user stub None
             (Some {| cred_email := "x@y.com"; cred_password := "right" |})
             world0).
    right. eexists. split; [reflexivity|].
    intros u Hu. apply list_elem_of_In in Hu. simpl in Hu.
    destruct Hu as [<-|[<-|[<-|[]]]]; discriminate.
Defined.

(** ** Mutation.createBeacon *)

(** A key of the fields handed to [new Beacon] is the caller's when the
    [beacon] argument has it, and the listed one otherwise. *)
Lemma createBeacon_fields (beacon base : gmap string Val) (k : string) :
  (beacon ∪ base) !! k
  = match beacon !! k with Some v => Some v | None => base !! k end.
Proof.
  destruct (beacon !! k) as [v|] eqn:Hk.
  - by apply lookup_union_Some_l.
  - by rewrite lookup_union_r.
Qed.

(** The three fields [createBeacon] lists before the spread. *)
Lemma createBeacon_listed (leader code : string) (loc : Val) :
  let base : gmap string Val :=
    {[ "leader" := VString leader; "shortcode" := VString code;
       "location" := loc ]} in
  base !! "leader" = Some (VString leader)
  ∧ base !! "shortcode" = Some (VString code)
  ∧ base !! "location" = Some loc.
Proof.
  simpl. split; [|split].
  - apply lookup_insert_eq.
  - rewrite lookup_insert_ne; [|done]. apply lookup_insert_eq.
  - rewrite !lookup_insert_ne; [|done..]. apply lookup_singleton_eq.
Qed.

(** A document the schema accepts took its leader, shortcode, location and
    expiry from the fields it was built from. *)
Lemma new_Beacon_fields (oid : ObjectId) (fields : gmap string Val)
    (b : Beacon.doc) :
  new_Beacon oid fields = Some b →
  fields !! "leader" = Some (VString (Beacon.leader b))
  ∧ fields !! "shortcode" = Some (VString (Beacon.shortcode b))
  ∧ fields !! "location" = Some (VLocation (Beacon.location b))
  ∧ fields !! "expiresAt" = Some (VNumber (Beacon.expiresAt b))
  ∧ Beacon.id b = oid.
Proof.
  unfold new_Beacon. intros Hnew.
  destruct (fields !! "leader") as [[]|]; try discriminate.
  destruct (fields !! "shortcode") as [[]|]; try discriminate.
  destruct (fields !! "location") as [[]|]; try discriminate.
  destruct (fields !! "expiresAt") as [[]|]; try discriminate.
  by injection Hnew as <-.
Qed.

(** What a successful [createBeacon] stored and answered. *)
Lemma createBeacon_returned (code : string) (oid : ObjectId)
    (beacon : gmap string Val) (user : User.doc) (w w' : World)
    (newBeacon : Beacon.doc) :
  Mutation.createBeacon code oid beacon user w = (Return newBeacon, w') →
  new_Beacon oid
    (beacon ∪ {[ "leader" := VString (User.id user);
                 "shortcode" := VString code;
                 "location" := get beacon "startLocation" ]})
  = Some newBeacon
  ∧ Beacons w' = (Beacons w ++ [newBeacon])%list.
Proof.
  unfold Mutation.createBeacon.
  destruct (new_Beacon oid _) as [b|]; run; [|discriminate].
  by intros [= <- <-].
Qed.

(** The active beacon of [world0] has the shortcode "ABCDEF"; when the
    generator yields "ABCDEF" again, [createBeacon] succeeds with it. *)
Lemma createBeacon_reuses_active_shortcode :
  ¬ createBeacon_unique 1000 "ABCDEF" "b2" picnic alice world0.
Proof.
  unfold createBeacon_unique. intros Hclaim.
  eapply (Hclaim _ _ ltac:(vm_compute; reflexivity) hike).
  - by left.
  - simpl. lia.
  - reflexivity.
Qed.

(** C3, as the code has it: whether [createBeacon] succeeds, and the beacon
    it answers, do not depend on the store it runs against, so the code is
    compared with no stored shortcode and no second code is generated; when
    the [beacon] argument has no [shortcode] key, the shortcode of the new
    beacon is the one code the generator yielded in the call, and the new
    beacon is appended to the stored ones. *)
Theorem createBeacon_shortcode_is_the_generated_code (code : string)
    (oid : ObjectId) (beacon : gmap string Val) (user : User.doc) :
  (∀ w1 w2,
     fst (Mutation.createBeacon code oid beacon user w1)
     = fst (Mutation.createBeacon code oid beacon user w2))
  ∧ (∀ w w' newBeacon,
       beacon !! "shortcode" = None →
       Mutation.createBeacon code oid beacon user w = (Return newBeacon, w') →
       Beacon.shortcode newBeacon = code
       ∧ Beacons w' = (Beacons w ++ [newBeacon])%list).
Proof.
  split.
  - intros w1 w2. unfold Mutation.createBeacon.
    by destruct (new_Beacon oid _); run.
  - intros w w' newBeacon Hkey Hrun.
    apply createBeacon_returned in Hrun as [Hnew Hstore].
    split; [|done].
    apply new_Beacon_fields in Hnew as (_ & Hnew & _).
    destruct (createBeacon_listed (User.id user) code
                (get beacon "startLocation")) as (_ & Hcode & _).
    rewrite createBeacon_fields, Hkey, Hcode in Hnew. congruence.
Qed.

Lemma createBeacon_shortcode_is_the_generated_code_witness :
  ∃ newBeacon w',
    Mutation.createBeacon "ABCDEF" "b2" picnic alice world0
    = (Return newBeacon, w')
    ∧ Beacon.shortcode newBeacon = "ABCDEF"
    ∧ Beacons w' = [hike; newBeacon].
Proof.
  eexists _, _. split; [vm_compute; reflexivity|].
  eapply (proj2 (createBeacon_shortcode_is_the_generated_code
                   "ABCDEF" "b2" picnic alice) world0).
  - vm_compute. reflexivity.
  - vm_compute. reflexivity.
Defined.

(** C9: the beacon a successful [createBeacon] answers has the caller as
    leader, the generated code as shortcode and [beacon.startLocation] as
    location when the [beacon] argument has no [leader], [shortcode] or
    [location] key; a key it does have is spread over the listed field, and
    the new beacon carries the caller-supplied value instead. *)
Theorem createBeacon_spread_overrides (code : string) (oid : ObjectId)
    (beacon : gmap string Val) (user : User.doc) (w w' : World)
    (newBeacon : Beacon.doc) :
  Mutation.createBeacon code oid beacon user w = (Return newBeacon, w') →
  (beacon !! "leader" = None → Beacon.leader newBeacon = User.id user)
  ∧ (beacon !! "shortcode" = None → Beacon.shortcode newBeacon = code)
  ∧ (beacon !! "location" = None →
     get beacon "startLocation" = VLocation (Beacon.location newBeacon))
  ∧ (∀ v, beacon !! "leader" = Some v → v = VString (Beacon.leader newBeacon))
  ∧ (∀ v, beacon !! "shortcode" = Some v →
          v = VString (Beacon.shortcode newBeacon))
  ∧ (∀ v, beacon !! "location" = Some v →
          v = VLocation (Beacon.location newBeacon)).
Proof.
  intros Hrun. apply createBeacon_returned in Hrun as [Hnew _].
  apply new_Beacon_fields in Hnew as (Hl & Hc & Hp & _).
  destruct (createBeacon_listed (User.id user) code
              (get beacon "startLocation")) as (Hl0 & Hc0 & Hp0).
  rewrite createBeacon_fields in Hl, Hc, Hp.
  repeat split.
  - intros Hk. rewrite Hk, Hl0 in Hl. congruence.
  - intros Hk. rewrite Hk, Hc0 in Hc. congruence.
  - intros Hk. rewrite Hk, Hp0 in Hp. congruence.
  - intros v Hk. rewrite Hk in Hl. congruence.
  - intros v Hk. rewrite Hk in Hc. congruence.
  - intros v Hk. rewrite Hk in Hp. congruence.
Qed.

Lemma createBeacon_spread_overrides_witness :
  (∃ newBeacon w',
     Mutation.createBeacon "QWERTY" "b2" picnic alice world0
     = (Return newBeacon, w')
     ∧ Beacon.leader newBeacon = User.id alice)
  ∧ (∃ newBeacon w',
       Mutation.createBeacon "QWERTY" "b2" picnic_led_by_carol alice world0
       = (Return newBeacon, w')
       ∧ VString "u3" = VString (Beacon.leader newBeacon)).
Proof.
  split.
  - eexists _, _. split; [vm_compute; reflexivity|].
    eapply (createBeacon_spread_overrides "QWERTY" "b2" picnic alice world0).
    + vm_compute. reflexivity.
    + vm_compute. reflexivity.
  - eexists _, _. split; [vm_compute; reflexivity|].
    eapply (createBeacon_spread_overrides "QWERTY" "b2" picnic_led_by_carol
              alice world0).
    + vm_compute. reflexivity.
    + vm_compute. reflexivity.
Defined.

(** ** Subscription.userLocation *)

(** The filter of [userLocation] lets nothing through that has no
    [userLocation] field, and the topic it listens on is the one of
    [updateBeaconLocation], whose payloads have none: as long as that holds
    of the payloads published on "BEACON_LOCATION", a [userLocation]
    subscriber is delivered nothing at all. *)
Lemma userLocation_delivers_nothing (id : ObjectId) (user : User.doc)
    (log : list (string * Payload)) :
  (∀ p, ("BEACON_LOCATION", p) ∈ log → userLocation p = None) →
  Subscription.userLocation id user log = [].
Proof.
  unfold Subscription.userLocation, withFilter, asyncIterator.
  induction log as [|[topic p] log IH]; intros Hlog; simpl; [done|].
  assert (IH' : ∀ p, ("BEACON_LOCATION", p) ∈ log → userLocation p = None).
  { intros q Hq. apply Hlog. by right. }
  destruct (bool_decide (topic ∈ ["BEACON_LOCATION"])) eqn:Ht; simpl;
    [|by apply IH].
  apply bool_decide_eq_true in Ht. apply list_elem_of_singleton in Ht as ->.
  rewrite (Hlog p); [|by left].
  destruct (bool_decide (beaconID p = id)); by apply IH.
Qed.

(** The mutations that publish keep the payloads of "BEACON_LOCATION"
    without a [userLocation] field, so the lemma above applies to every log
    they build. *)
Lemma publishing_keeps_beacon_location_payloads (w : World) :
  beacon_location_payloads (published w) →
  (∀ id location user,
     beacon_location_payloads
       (published (snd (Mutation.updateBeaconLocation id location user w))))
  ∧ (∀ id location user,
       beacon_location_payloads
         (published (snd (Mutation.updateUserLocation id location user w))))
  ∧ (∀ shortcode user,
       beacon_location_payloads
         (published (snd (Mutation.joinBeacon shortcode user w)))).
Proof.
  intros Hw.
  assert (Hpush : ∀ topic q,
    (topic = "BEACON_LOCATION" → userLocation q = None) →
    beacon_location_payloads (published w ++ [(topic, q)])).
  { intros topic q Hq p Hp. apply elem_of_app in Hp as [Hp|Hp].
    - by apply Hw.
    - apply list_elem_of_singleton in Hp. injection Hp as <- <-. by apply Hq. }
  repeat split.
  - intros id location user. unfold Mutation.updateBeaconLocation. run.
    destruct (findById Beacon.id id (Beacons w)) as [b|]; [|done].
    destruct (findById User.id (Beacon.leader b) (Users w)) as [l|]; [|done].
    destruct (bool_decide (User.id l ≠ User.id user)); [done|].
    simpl. by apply Hpush.
  - intros id location user. unfold Mutation.updateUserLocation. run.
    destruct (findById Beacon.id id (Beacons w)) as [b|]; [|done].
    simpl. apply Hpush. discriminate.
  - intros shortcode user. unfold Mutation.joinBeacon. run.
    destruct (List.find _ (Beacons w)) as [b|]; [|done].
    rewrite includes_document. simpl. apply Hpush. discriminate.
Qed.

(** C2, evaluated on the store [world0]: Bob's [updateUserLocation] for
    beacon [b1] succeeds and publishes one payload, on "USER_LOCATION",
    carrying Bob with the new location; Carol's [userLocation] subscription
    for [b1], open meanwhile, is delivered nothing, although the payload is
    for that beacon and for another user than her. A subscription made of
    the same filter on the topic "USER_LOCATION" is delivered the payload. *)
Theorem userLocation_listens_on_the_wrong_topic :
  let location := {| lat := 3; lon := 4 |} in
  let moved := User.set_location bob location in
  let payload := {| beaconLocation := None; userLocation := Some moved;
                    beaconJoined := None; beaconID := "b1" |} in
  let '(answer, w') :=
    Mutation.updateUserLocation "b1" location bob world0 in
  answer = Return moved
  ∧ published w' = [("USER_LOCATION", payload)]
  ∧ Subscription.userLocation "b1" carol (published w') = []
  ∧ withFilter ["USER_LOCATION"]
      (λ payload,
         if bool_decide (beaconID payload = "b1")
         then match userLocation payload with
              | Some u => Return (bool_decide (User.id u ≠ User.id carol))
              | None => Abort TypeError
              end
         else Return false)
      (published w')
    = [payload].
Proof. vm_compute. repeat split; reflexivity. Qed.

(** * Further properties of the resolvers *)

(** ** Queries over a collection *)

Section FindFacts.
Context {D : Type}.

Lemma find_is_Some (P : D → bool) c x :
  x ∈ c → P x = true → is_Some (List.find P c).
Proof.
  intros Hx HP. destruct (List.find P c) eqn:Hf; [by eexists|].
  apply list_elem_of_In in Hx.
  by rewrite (find_none _ _ Hf x Hx) in HP.
Qed.

Lemma find_app_l (P : D → bool) c c' x :
  List.find P c = Some x → List.find P (c ++ c') = Some x.
Proof.
  induction c as [|y c IH]; simpl; [done|]. by destruct (P y).
Qed.

Lemma find_app_r (P : D → bool) c c' :
  List.find P c = None → List.find P (c ++ c') = List.find P c'.
Proof.
  induction c as [|y c IH]; simpl; [done|]. by destruct (P y).
Qed.
End FindFacts.

Lemma truthy_nonempty (i : string) : i ≠ "" → truthy (Some i) = true.
Proof. intros Hi. simpl. apply negb_true_iff. by apply String.eqb_neq. Qed.

(** ** Mutation.register *)

(** What a [register] that is not refused does. *)
Lemma register_accepted (bcrypt_hash : string → string) (oid : ObjectId)
    (name : string) (credentials : option Credentials) (w : World) :
  (∀ c, credentials = Some c →
        ∀ u, u ∈ Users w → User.email u ≠ Some (cred_email c)) →
  let newUser :=
    {| User.id := oid; User.name := name;
       User.email := cred_email <$> credentials;
       User.password := (λ c, bcrypt_hash (cred_password c)) <$> credentials;
       User.location := None; User.beacons := [] |} in
  register bcrypt_hash oid name credentials w
  = (Return newUser,
     {| Users := Users w ++ [newUser]; Beacons := Beacons w;
        published := published w |}).
Proof.
  intros Hfree. unfold register. run. destruct credentials as [c|]; simpl;
    [|done].
  rewrite find_none_elem; [done|].
  intros u Hu. apply bool_decide_eq_false_2. by apply (Hfree c).
Qed.

(** X1: [register] with credentials whose email some stored user already
    has is refused with "User with email already registered." and stores
    nothing. *)
Theorem register_refuses_known_email (bcrypt_hash : string → string)
    (oid : ObjectId) (name : string) (c : Credentials) (w : World)
    (u : User.doc) :
  u ∈ Users w →
  User.email u = Some (cred_email c) →
  register bcrypt_hash oid name (Some c) w
  = (Abort (UserInputError "User with email already registered."), w).
Proof.
  intros Hu He. unfold register. run.
  destruct (find_is_Some
              (λ u, bool_decide (User.email u = Some (cred_email c)))
              (Users w) u Hu) as [found Hfound].
  { by apply bool_decide_eq_true_2. }
  rewrite Hfound. by rewrite bool_decide_eq_true_2.
Qed.

Lemma register_refuses_known_email_witness :
  register (λ pw, "hash:" ++ pw) "u4" "Mallory"
    (Some {| cred_email := "a@b.com"; cred_password := "guess" |}) world0
  = (Abort (UserInputError "User with email already registered."), world0).
Proof.
  apply (register_refuses_known_email _ "u4" "Mallory" _ world0 alice).
  - by left.
  - reflexivity.
Defined.

(** X2: registering with credentials and then logging in with the same
    email: the outcome of [login] is decided by [bcrypt.compare] of the
    password given against the hash [register] stored; when it accepts,
    the token is for the new user, not anonymous, and carries the email
    (if not empty); when it rejects, the answer is "credentials don't
    match". *)
Theorem register_then_login `{Externals} (bcrypt_hash : string → string)
    (oid : ObjectId) (name : string) (c : Credentials) (password : string)
    (w : World) :
  (∀ u, u ∈ Users w → User.email u ≠ Some (cred_email c)) →
  let w' := snd (register bcrypt_hash oid name (Some c) w) in
  Mutation.login None
    (Some {| cred_email := cred_email c; cred_password := password |}) w'
  = (if bcrypt_compare password (bcrypt_hash (cred_password c))
     then Return {| anon := false;
                    claim_email := if truthy (Some (cred_email c))
                                   then Some (cred_email c) else None;
                    subject := oid;
                    expiresIn := "7d" |}
     else Abort (AuthenticationError "credentials don't match"), w').
Proof.
  intros Hfree w'. subst w'.
  rewrite register_accepted; [|by intros ? [= <-]]. simpl.
  unfold Mutation.login. run.
  rewrite find_app_r.
  2:{ apply find_none_elem. intros u Hu. apply bool_decide_eq_false_2.
      by apply Hfree. }
  simpl. rewrite bool_decide_eq_true_2; [|done]. simpl.
  rewrite andb_false_r. rewrite bool_decide_eq_true_2; [|done].
  by destruct (bcrypt_compare password (bcrypt_hash (cred_password c))).
Qed.

Lemma register_then_login_witness :
  @Mutation.login stub None
    (Some {| cred_email := "d@e.org"; cred_password := "secret" |})
    (snd (register (λ pw, "hash:" ++ pw) "u4" "Dave"
            (Some {| cred_email := "d@e.org"; cred_password := "secret" |})
            world0))
  = (Return {| anon := false; claim_email := Some "d@e.org";
               subject := "u4"; expiresIn := "7d" |},
     snd (register (λ pw, "hash:" ++ pw) "u4" "Dave"
            (Some {| cred_email := "d@e.org"; cred_password := "secret" |})
            world0)).
Proof.
  apply (@register_then_login stub (λ pw, "hash:" ++ pw) "u4" "Dave"
           {| cred_email := "d@e.org"; cred_password := "secret" |}
           "secret" world0).
  intros u Hu. apply list_elem_of_In in Hu. simpl in Hu.
  destruct Hu as [<-|[<-|[<-|[]]]]; discriminate.
Defined.

(** X3: registering without credentials and then logging in with the new
    identifier alone yields an anonymous token for the new user, without
    an email claim. *)
Theorem register_anonymous_then_login `{Externals}
    (bcrypt_hash : string → string) (oid name : string) (w : World) :
  oid ≠ "" →
  findById User.id oid (Users w) = None →
  let w' := snd (register bcrypt_hash oid name None w) in
  Mutation.login (Some oid) None w'
  = (Return {| anon := true; claim_email := None; subject := oid;
               expiresIn := "7d" |}, w').
Proof.
  intros Hoid Hfresh w'. subst w'.
  rewrite register_accepted; [|done].
  unfold Mutation.login. rewrite (truthy_nonempty _ Hoid). run.
  unfold findById in *. rewrite find_app_r; [|done]. simpl.
  by rewrite bool_decide_eq_true_2.
Qed.

Lemma register_anonymous_then_login_witness :
  @Mutation.login stub (Some "u4") None
    (snd (register (λ pw, "hash:" ++ pw) "u4" "Dave" None world0))
  = (Return {| anon := true; claim_email := None; subject := "u4";
               expiresIn := "7d" |},
     snd (register (λ pw, "hash:" ++ pw) "u4" "Dave" None world0)).
Proof.
  apply (@register_anonymous_then_login stub (λ pw, "hash:" ++ pw) "u4"
           "Dave" world0).
  - discriminate.
  - reflexivity.
Defined.

(** ** Mutation.login, continued *)

(** X4: a token is issued only for a stored user and only in two ways.
    Without credentials: the user has no (non-empty) email, and the token
    is anonymous and has no email claim. With credentials: the user has
    the email of the credentials and a stored hash that [bcrypt.compare]
    accepts for the password, and the token is not anonymous. The subject
    is the user's identifier, the lifetime "7d", and the store is not
    written. *)
Theorem login_token_sound `{Externals} (id : option string)
    (credentials : option Credentials) (w w' : World) (t : Token) :
  Mutation.login id credentials w = (Return t, w') →
  w' = w
  ∧ ∃ u, u ∈ Users w
         ∧ subject t = User.id u
         ∧ expiresIn t = "7d"
         ∧ match credentials with
           | None =>
               anon t = true ∧ claim_email t = None
               ∧ truthy (User.email u) = false
           | Some c =>
               anon t = false
               ∧ User.email u = Some (cred_email c)
               ∧ claim_email t = (if truthy (Some (cred_email c))
                                  then Some (cred_email c) else None)
               ∧ ∃ hash, User.password u = Some hash
                         ∧ bcrypt_compare (cred_password c) hash = true
           end.
Proof.
  unfold Mutation.login.
  destruct (negb (truthy id) && negb (bool_decide (is_Some credentials)));
    [by run|].
  assert (Htail : ∀ u, u ∈ Users w →
    (if truthy (User.email u) && negb (bool_decide (is_Some credentials))
     then fail (UserInputError "Email/password required to login")
     else
       anon ← match credentials with
              | Some c =>
                  valid ←
                    (if bool_decide (Some (cred_email c) = User.email u)
                     then match User.password u with
                          | Some hash =>
                              mret (bcrypt_compare (cred_password c) hash)
                          | None => fail IllegalArguments
                          end
                     else mret false);
                  if valid : bool then mret false
                  else fail (AuthenticationError "credentials don't match")
              | None => mret true
              end;
       mret {| anon := anon;
               claim_email := if truthy (cred_email <$> credentials)
                              then cred_email <$> credentials else None;
               subject := User.id u;
               expiresIn := "7d" |}) w = (Return t, w') →
    w' = w
    ∧ ∃ u, u ∈ Users w ∧ subject t = User.id u ∧ expiresIn t = "7d"
           ∧ match credentials with
             | None =>
                 anon t = true ∧ claim_email t = None
                 ∧ truthy (User.email u) = false
             | Some c =>
                 anon t = false
                 ∧ User.email u = Some (cred_email c)
                 ∧ claim_email t = (if truthy (Some (cred_email c))
                                    then Some (cred_email c) else None)
                 ∧ ∃ hash, User.password u = Some hash
                           ∧ bcrypt_compare (cred_password c) hash = true
             end).
  { intros u Hin. destruct credentials as [c|]; run.
    - rewrite andb_false_r.
      destruct (bool_decide (Some (cred_email c) = User.email u)) eqn:He;
        [|discriminate].
      apply bool_decide_eq_true in He.
      destruct (User.password u) as [hash|] eqn:Hp; [|discriminate]. simpl.
      destruct (bcrypt_compare (cred_password c) hash) eqn:Hc;
        [|discriminate].
      intros [= <- <-]. split; [done|]. exists u. simpl.
      repeat split; try done. by exists hash.
    - rewrite andb_true_r.
      destruct (truthy (User.email u)) eqn:He; [discriminate|].
      intros [= <- <-]. split; [done|]. exists u. by simpl. }
  unfold mbind at 1, resolver_bind at 1.
  destruct (truthy id).
  - unfold User_findById.
    destruct (findById User.id (default "" id) (Users w)) as [u|] eqn:Hu;
      [|discriminate].
    apply Htail. by apply findById_elem in Hu.
  - unfold User_findOne_email.
    destruct (List.find _ (Users w)) as [u|] eqn:Hu; [|discriminate].
    apply Htail. apply find_some in Hu as [Hu _]. by apply list_elem_of_In.
Qed.

Lemma login_token_sound_witness :
  ∃ u, u ∈ Users world0 ∧ "u1" = User.id u
       ∧ User.email u = Some "a@b.com"
       ∧ ∃ hash, User.password u = Some hash
                 ∧ @bcrypt_compare stub "right" hash = true.
Proof.
  destruct (@login_token_sound stub (Some "u1")
              (Some {| cred_email := "a@b.com"; cred_password := "right" |})
              world0 world0
              {| anon := false; claim_email := Some "a@b.com";
                 subject := "u1"; expiresIn := "7d" |} eq_refl)
    as (_ & u & Hu & Hs & _ & _ & He & _ & Hh).
  exists u. repeat split; assumption.
Defined.

(** X5: logging in with an identifier alone is refused, with "Email/
    password required to login", for a user that has a (non-empty) email:
    the identifier of a registered user is not enough. *)
Theorem login_by_id_refused_for_registered `{Externals} (i : string)
    (u : User.doc) (w : World) :
  i ≠ "" →
  findById User.id i (Users w) = Some u →
  truthy (User.email u) = true →
  Mutation.login (Some i) None w
  = (Abort (UserInputError "Email/password required to login"), w).
Proof.
  intros Hi Hu He. unfold Mutation.login.
  rewrite (truthy_nonempty _ Hi). run. by rewrite Hu, He.
Qed.

Lemma login_by_id_refused_for_registered_witness :
  @Mutation.login stub (Some "u1") None world0
  = (Abort (UserInputError "Email/password required to login"), world0).
Proof.
  apply (@login_by_id_refused_for_registered stub "u1" alice world0).
  - discriminate.
  - reflexivity.
  - reflexivity.
Defined.

(** ** Requests that fail *)

(** X6: a mutation served for a resolved caller (the context holds a user
    document; [register] needs none) that ends with an error object or an
    exception leaves the store and the publish log exactly as they were:
    for such a caller all checks come before the first write. [login]
    never writes at all. *)
Theorem failed_request_leaves_no_trace `{Externals} `{LandmarkSchema} :
  (∀ bcrypt_hash oid name credentials,
     leaves_no_trace (register bcrypt_hash oid name credentials))
  ∧ (∀ code oid beacon user,
       leaves_no_trace (Mutation.createBeacon code oid beacon user))
  ∧ (∀ shortcode user, leaves_no_trace (Mutation.joinBeacon shortcode user))
  ∧ (∀ id location user,
       leaves_no_trace (Mutation.updateBeaconLocation id location user))
  ∧ (∀ id location user,
       leaves_no_trace (Mutation.updateUserLocation id location user))
  ∧ (∀ beaconID newLeaderID user,
       leaves_no_trace (Mutation.changeLeader beaconID newLeaderID user))
  ∧ (∀ oid landmark beaconID user s e s',
       createLandmark oid landmark beaconID user s = (Abort e, s') → s' = s)
  ∧ (∀ id credentials w, snd (Mutation.login id credentials w) = w).
Proof.
  unfold leaves_no_trace. repeat split.
  - intros h oid name credentials w e w'. unfold register. run.
    destruct credentials as [c|]; simpl.
    + destruct (bool_decide _); [by intros [= _ <-]|discriminate].
    + discriminate.
  - intros code oid beacon user w e w'. unfold Mutation.createBeacon.
    destruct (new_Beacon oid _); run; [discriminate|by intros [= _ <-]].
  - intros shortcode user w e w'. unfold Mutation.joinBeacon. run.
    destruct (List.find _ (Beacons w)) as [b|]; [|by intros [= _ <-]].
    rewrite includes_document. discriminate.
  - intros id location user w e w'. unfold Mutation.updateBeaconLocation. run.
    destruct (findById Beacon.id id (Beacons w)) as [b|];
      [|by intros [= _ <-]].
    destruct (findById User.id (Beacon.leader b) (Users w)) as [l|];
      [|by intros [= _ <-]].
    destruct (bool_decide _); [by intros [= _ <-]|discriminate].
  - intros id location user w e w'. unfold Mutation.updateUserLocation. run.
    destruct (findById Beacon.id id (Beacons w)) as [b|];
      [discriminate|by intros [= _ <-]].
  - intros beaconID newLeaderID user w e w'. unfold Mutation.changeLeader. run.
    destruct (findById Beacon.id beaconID (Beacons w)) as [b|];
      [|by intros [= _ <-]].
    destruct (bool_decide _); [by intros [= _ <-]|discriminate].
  - intros oid landmark beaconID user s e s'. unfold createLandmark.
    destruct (findById Beacon.id beaconID (Beacons (world s))) as [b|];
      [|by intros [= _ <-]].
    destruct (negb _ && _); [by intros [= _ <-]|].
    destruct (new_Landmark oid _); [discriminate|by intros [= _ <-]].
  - intros id credentials w. unfold Mutation.login.
    destruct (negb (truthy id) && _); [done|].
    unfold mbind at 1, resolver_bind at 1.
    assert (Htail : ∀ found : option User.doc,
      snd (match found with
           | Some user =>
               if truthy (User.email user)
                  && negb (bool_decide (is_Some credentials))
               then fail (UserInputError "Email/password required to login")
               else
                 anon ← match credentials with
                        | Some c =>
                            valid ←
                              (if bool_decide
                                    (Some (cred_email c) = User.email user)
                               then match User.password user with
                                    | Some hash =>
                                        mret (bcrypt_compare
                                                (cred_password c) hash)
                                    | None => fail IllegalArguments
                                    end
                               else mret false);
                            if valid : bool then mret false
                            else fail (AuthenticationError
                                         "credentials don't match")
                        | None => mret true
                        end;
                 mret {| anon := anon;
                         claim_email :=
                           if truthy (cred_email <$> credentials)
                           then cred_email <$> credentials else None;
                         subject := User.id user;
                         expiresIn := "7d" |}
           | None => fail (Error "User not found.")
           end w) = w).
    { intros [u|]; [|done].
      destruct (truthy (User.email u) && _); [done|]. run.
      destruct credentials as [c|]; simpl; [|done].
      destruct (bool_decide _); simpl; [|done].
      destruct (User.password u); simpl; [|done].
      by destruct (bcrypt_compare _ _). }
    destruct (truthy id); apply Htail.
Qed.

Lemma failed_request_leaves_no_trace_witness :
  snd (Mutation.joinBeacon "ZZZZZZ" carol world0) = world0.
Proof.
  apply (proj1 (proj2 (proj2
           (@failed_request_leaves_no_trace stub stub_landmarks)))
           "ZZZZZZ" carol world0
           (UserInputError "No beacon exists with that shortcode.")).
  reflexivity.
Defined.

(** ** Subscriptions *)

(** Publishing one more payload extends what a subscription delivers by
    that payload when it is on a topic of the subscription and passes the
    filter, and by nothing otherwise. *)
Lemma withFilter_publish (topics : list string)
    (filterFn : Payload → Completion bool) (log : list (string * Payload))
    (topic : string) (p : Payload) :
  withFilter topics filterFn (log ++ [(topic, p)])
  = (withFilter topics filterFn log
     ++ (if bool_decide (topic ∈ topics)
         then match filterFn p with Return true => [p] | _ => [] end
         else []))%list.
Proof.
  unfold withFilter, asyncIterator.
  rewrite List.filter_app, fmap_app, List.filter_app. f_equal. simpl.
  destruct (bool_decide (topic ∈ topics)); simpl; [|done].
  by destruct (filterFn p) as [[]|].
Qed.

(** ** Mutation.joinBeacon, continued *)

(** X8: [joinBeacon] succeeds whenever the shortcode resolves to a beacon
    of which the caller is not yet a follower, and the beacon it answers
    is that beacon with the caller added at the end of its followers.
    Nothing else is checked: in particular the leader of the beacon is
    admitted, and is then its leader and one of its followers at once. *)
Theorem joinBeacon_admits_any_non_follower (shortcode : string)
    (user : User.doc) (w : World) (b : Beacon.doc) :
  List.find (λ b, bool_decide (Beacon.shortcode b = shortcode)) (Beacons w)
  = Some b →
  User.id user ∉ Beacon.followers b →
  ∃ w',
    Mutation.joinBeacon shortcode user w
    = (Return (Beacon.push_follower b (User.id user)), w')
    ∧ (Beacon.leader b = User.id user →
       Beacon.leader (Beacon.push_follower b (User.id user))
       ∈ Beacon.followers (Beacon.push_follower b (User.id user))).
Proof.
  intros Hb Hnew. rewrite (joinBeacon_accepts _ _ _ _ Hb).
  eexists. split; [done|]. simpl. intros ->.
  apply elem_of_app. right. by left.
Qed.

Lemma joinBeacon_admits_any_non_follower_witness :
  ∃ w',
    Mutation.joinBeacon "ABCDEF" alice world0
    = (Return (Beacon.push_follower hike "u1"), w')
    ∧ Beacon.leader (Beacon.push_follower hike "u1")
      ∈ Beacon.followers (Beacon.push_follower hike "u1").
Proof.
  destruct (joinBeacon_admits_any_non_follower "ABCDEF" alice world0 hike)
    as (w' & Hrun & Hlead).
  - reflexivity.
  - intros Hin. apply list_elem_of_In in Hin. simpl in Hin.
    destruct Hin as [Hin|[]]. discriminate Hin.
  - exists w'. split; [exact Hrun|]. apply Hlead. reflexivity.
Defined.

(** X9: a [joinBeacon] that succeeds, a repeated one included, publishes
    one payload, with the beacon's id and the joining user; the payload
    holds the user object itself, onto whose beacons line 127 pushes the
    beacon before anything is delivered, so the user delivered has the
    beacon at the end of its beacons. The [beaconJoined] subscription for
    that beacon is delivered the payload after what it was delivered
    before; the [beaconJoined] subscriptions for other beacons and all
    [beaconLocation] and [userLocation] subscriptions are delivered nothing
    new. *)
Theorem joinBeacon_notifies_beaconJoined (shortcode : string)
    (user : User.doc) (w w' : World) (b' : Beacon.doc) :
  Mutation.joinBeacon shortcode user w = (Return b', w') →
  let payload := {| beaconLocation := None; userLocation := None;
                    beaconJoined :=
                      Some (User.push_beacon user (Beacon.id b'));
                    beaconID := Beacon.id b' |} in
  published w' = (published w ++ [("BEACON_JOINED", payload)])%list
  ∧ Subscription.beaconJoined (Beacon.id b') (published w')
    = (Subscription.beaconJoined (Beacon.id b') (published w) ++ [payload])%list
  ∧ (∀ i, i ≠ Beacon.id b' →
          Subscription.beaconJoined i (published w')
          = Subscription.beaconJoined i (published w))
  ∧ (∀ i, Subscription.beaconLocation i (published w')
          = Subscription.beaconLocation i (published w))
  ∧ (∀ i subscriber,
       Subscription.userLocation i subscriber (published w')
       = Subscription.userLocation i subscriber (published w)).
Proof.
  destruct (List.find (λ b, bool_decide (Beacon.shortcode b = shortcode))
              (Beacons w)) as [b|] eqn:Hb.
  2:{ unfold Mutation.joinBeacon. run. by rewrite Hb. }
  rewrite (joinBeacon_accepts _ _ _ _ Hb).
  intros [= <- <-]. simpl. split; [done|].
  unfold Subscription.beaconJoined, Subscription.beaconLocation,
    Subscription.userLocation.
  repeat split; intros; rewrite withFilter_publish; simpl.
  - by rewrite bool_decide_eq_true_2.
  - rewrite bool_decide_eq_false_2; [|congruence]. by rewrite app_nil_r.
  - by rewrite app_nil_r.
  - by rewrite app_nil_r.
Qed.

Lemma joinBeacon_notifies_beaconJoined_witness :
  Subscription.beaconJoined "b1"
    (published (snd (Mutation.joinBeacon "ABCDEF" carol world0)))
  = (Subscription.beaconJoined "b1" (published world0)
     ++ [{| beaconLocation := None; userLocation := None;
            beaconJoined := Some (User.push_beacon carol "b1");
            beaconID := "b1" |}])%list.
Proof.
  apply (joinBeacon_notifies_beaconJoined "ABCDEF" carol world0 _
           (Beacon.push_follower hike "u3")).
  reflexivity.
Defined.

(** ** Mutation.updateBeaconLocation, continued *)

(** X10: when the caller is the leader of the stored beacon, and the leader
    reference resolves, [updateBeaconLocation] answers the beacon with the
    new location; the store then holds that beacon under the id and every
    other beacon and all users as before; one payload is published, which
    carries the location alone, and the [beaconLocation] subscription for
    the beacon is delivered it, the one for any other beacon nothing. *)
Theorem updateBeaconLocation_by_leader (id : ObjectId) (location : Location)
    (user : User.doc) (w : World) (b : Beacon.doc) :
  findById Beacon.id id (Beacons w) = Some b →
  Beacon.leader b = User.id user →
  is_Some (findById User.id (Beacon.leader b) (Users w)) →
  let b' := Beacon.set_location b location in
  let payload := {| beaconLocation := Some location; userLocation := None;
                    beaconJoined := None; beaconID := id |} in
  ∃ w',
    Mutation.updateBeaconLocation id location user w = (Return b', w')
    ∧ findById Beacon.id id (Beacons w') = Some b'
    ∧ (∀ i, i ≠ id →
            findById Beacon.id i (Beacons w') = findById Beacon.id i (Beacons w))
    ∧ Users w' = Users w
    ∧ published w' = (published w ++ [("BEACON_LOCATION", payload)])%list
    ∧ Subscription.beaconLocation id (published w')
      = (Subscription.beaconLocation id (published w) ++ [payload])%list
    ∧ (∀ i, i ≠ id →
            Subscription.beaconLocation i (published w')
            = Subscription.beaconLocation i (published w)).
Proof.
  intros Hb Hl [l Hlu] b' payload.
  pose proof (findById_key _ _ _ _ Hb) as Hid.
  pose proof (findById_key _ _ _ _ Hlu) as Hlid.
  unfold Mutation.updateBeaconLocation. run. rewrite Hb, Hlu.
  rewrite bool_decide_eq_false_2; [|intros Hne; apply Hne; congruence].
  eexists. split; [reflexivity|]. simpl.
  assert (Hid' : Beacon.id b' = id) by done.
  split; [|split; [|split; [done|split]]].
  - rewrite <- Hid' in Hb |- *. by eapply findById_replace_eq.
  - intros i Hi. apply findById_replace_ne. simpl. by rewrite Hid.
  - by rewrite Hid.
  - unfold Subscription.beaconLocation. rewrite Hid.
    split; [|intros i Hi]; rewrite withFilter_publish; simpl.
    + by rewrite bool_decide_eq_true_2.
    + rewrite bool_decide_eq_false_2; [|congruence]. by rewrite app_nil_r.
Qed.

Lemma updateBeaconLocation_by_leader_witness :
  ∃ w',
    Mutation.updateBeaconLocation "b1" {| lat := 3; lon := 4 |} alice world0
    = (Return (Beacon.set_location hike {| lat := 3; lon := 4 |}), w')
    ∧ findById Beacon.id "b1" (Beacons w')
      = Some (Beacon.set_location hike {| lat := 3; lon := 4 |}).
Proof.
  destruct (updateBeaconLocation_by_leader "b1" {| lat := 3; lon := 4 |}
              alice world0 hike) as (w' & Hrun & Hfind & _).
  - reflexivity.
  - reflexivity.
  - eexists. reflexivity.
  - exists w'. split; assumption.
Defined.

(** ** Mutation.updateUserLocation *)

(** X11: [updateUserLocation] asks only that the beacon exists: for any
    caller, member or not, it answers the caller with the new location
    and publishes one payload on "USER_LOCATION". The stored document of
    the caller then has the new location and the beacons are untouched.
    No subscription delivers the payload: what [beaconLocation],
    [beaconJoined] and [userLocation] subscriptions deliver, for any beacon
    and any subscriber, is what they delivered before. *)
Theorem updateUserLocation_reaches_no_subscriber (id : ObjectId)
    (location : Location) (user : User.doc) (w : World) (b : Beacon.doc) :
  findById Beacon.id id (Beacons w) = Some b →
  let moved := User.set_location user location in
  ∃ w',
    Mutation.updateUserLocation id location user w = (Return moved, w')
    ∧ Beacons w' = Beacons w
    ∧ published w'
      = (published w
         ++ [("USER_LOCATION",
              {| beaconLocation := None; userLocation := Some moved;
                 beaconJoined := None; beaconID := id |})])%list
    ∧ (is_Some (findById User.id (User.id user) (Users w)) →
       findById User.id (User.id user) (Users w') = Some moved)
    ∧ (∀ i subscriber,
         Subscription.userLocation i subscriber (published w')
         = Subscription.userLocation i subscriber (published w)
         ∧ Subscription.beaconLocation i (published w')
           = Subscription.beaconLocation i (published w)
         ∧ Subscription.beaconJoined i (published w')
           = Subscription.beaconJoined i (published w)).
Proof.
  intros Hb moved. pose proof (findById_key _ _ _ _ Hb) as Hid.
  unfold Mutation.updateUserLocation. run. rewrite Hb.
  eexists. split; [reflexivity|]. simpl. split; [done|].
  split; [by rewrite Hid|]. split.
  - intros [u0 Hu0].
    change (User.id user) with (User.id moved) in Hu0 |- *.
    by eapply findById_replace_eq.
  - intros i subscriber.
    unfold Subscription.userLocation, Subscription.beaconLocation,
      Subscription.beaconJoined.
    rewrite !withFilter_publish. simpl. by rewrite !app_nil_r.
Qed.

Lemma updateUserLocation_reaches_no_subscriber_witness :
  ∃ w',
    Mutation.updateUserLocation "b1" {| lat := 3; lon := 4 |} carol world0
    = (Return (User.set_location carol {| lat := 3; lon := 4 |}), w')
    ∧ Subscription.userLocation "b1" bob (published w')
      = Subscription.userLocation "b1" bob (published world0).
Proof.
  destruct (updateUserLocation_reaches_no_subscriber "b1"
              {| lat := 3; lon := 4 |} carol world0 hike eq_refl)
    as (w' & Hrun & _ & _ & _ & Hsub).
  exists w'. split; [exact Hrun|]. apply Hsub.
Defined.

(** ** Mutation.changeLeader, continued *)

(** What a [changeLeader] by the leader leaves in the store. *)
Lemma changeLeader_by_leader (beaconID newLeaderID : ObjectId)
    (user : User.doc) (w : World) (b : Beacon.doc) :
  findById Beacon.id beaconID (Beacons w) = Some b →
  Beacon.leader b = User.id user →
  let w1 := snd (Mutation.changeLeader beaconID newLeaderID user w) in
  findById Beacon.id beaconID (Beacons w1)
  = Some (Beacon.set_leader b newLeaderID)
  ∧ Users w1 = Users w.
Proof.
  intros Hb Hl. pose proof (findById_key _ _ _ _ Hb) as Hid.
  unfold Mutation.changeLeader. run. rewrite Hb.
  rewrite bool_decide_eq_false_2; [|by intros []]. simpl. split; [|done].
  change (Beacon.id b) with (Beacon.id (Beacon.set_leader b newLeaderID)) in Hid.
  rewrite <- Hid in Hb |- *. by eapply findById_replace_eq.
Qed.

(** X12: leadership is handed over. After the leader has made
    [newLeaderID] the leader, a caller with another id than [newLeaderID]
    (the former leader, unless it named itself) can change neither the
    beacon's location nor its leader, and the stored user [newLeaderID]
    can change the location. *)
Theorem changeLeader_hands_over (beaconID newLeaderID : ObjectId)
    (user : User.doc) (w : World) (b : Beacon.doc) :
  findById Beacon.id beaconID (Beacons w) = Some b →
  Beacon.leader b = User.id user →
  let w1 := snd (Mutation.changeLeader beaconID newLeaderID user w) in
  (∀ caller location,
     User.id caller ≠ newLeaderID →
     ∃ e, Mutation.updateBeaconLocation beaconID location caller w1
          = (Abort e, w1))
  ∧ (∀ caller anyone,
       User.id caller ≠ newLeaderID →
       Mutation.changeLeader beaconID anyone caller w1
       = (Abort (Error "Only the beacon leader can update leader"), w1))
  ∧ (∀ caller location,
       User.id caller = newLeaderID →
       is_Some (findById User.id newLeaderID (Users w)) →
       ∃ w2, Mutation.updateBeaconLocation beaconID location caller w1
             = (Return (Beacon.set_location
                          (Beacon.set_leader b newLeaderID) location), w2)).
Proof.
  intros Hb Hl w1.
  destruct (changeLeader_by_leader beaconID newLeaderID user w b Hb Hl)
    as [Hb1 Hu1]. fold w1 in Hb1, Hu1.
  split; [|split].
  - intros caller location Hne. unfold Mutation.updateBeaconLocation. run.
    rewrite Hb1, Hu1. simpl.
    destruct (findById User.id newLeaderID (Users w)) as [l|] eqn:Hlu;
      [|by eexists].
    apply findById_key in Hlu.
    rewrite bool_decide_eq_true_2; [by eexists|congruence].
  - intros caller anyone Hne. unfold Mutation.changeLeader. run.
    rewrite Hb1. simpl. by rewrite bool_decide_eq_true_2.
  - intros caller location Heq [l Hlu]. unfold Mutation.updateBeaconLocation.
    run. rewrite Hb1, Hu1. simpl. rewrite Hlu.
    apply findById_key in Hlu.
    rewrite bool_decide_eq_false_2; [by eexists|].
    intros Hne. apply Hne. congruence.
Qed.

Lemma changeLeader_hands_over_witness :
  (∃ e, Mutation.updateBeaconLocation "b1" {| lat := 3; lon := 4 |} alice
          (snd (Mutation.changeLeader "b1" "u3" alice world0))
        = (Abort e, snd (Mutation.changeLeader "b1" "u3" alice world0)))
  ∧ ∃ w2, Mutation.updateBeaconLocation "b1" {| lat := 3; lon := 4 |} carol
            (snd (Mutation.changeLeader "b1" "u3" alice world0))
          = (Return (Beacon.set_location (Beacon.set_leader hike "u3")
                       {| lat := 3; lon := 4 |}), w2).
Proof.
  destruct (changeLeader_hands_over "b1" "u3" alice world0 hike
              eq_refl eq_refl) as (Hold & _ & Hnew).
  split.
  - apply Hold. discriminate.
  - apply Hnew; [reflexivity|]. eexists. reflexivity.
Defined.

(** X13: [changeLeader] does not ask that [newLeaderID] be a user. When it
    is the id of no stored user, the beacon is left with a leader
    reference that resolves to nothing: on the store [changeLeader]
    leaves, an [updateBeaconLocation] on that beacon, by whatever caller
    and to whatever location, throws and changes nothing. *)
Theorem changeLeader_to_nobody_locks_location (beaconID newLeaderID : ObjectId)
    (user : User.doc) (w : World) (b : Beacon.doc) :
  findById Beacon.id beaconID (Beacons w) = Some b →
  Beacon.leader b = User.id user →
  findById User.id newLeaderID (Users w) = None →
  let w1 := snd (Mutation.changeLeader beaconID newLeaderID user w) in
  ∀ caller location,
    Mutation.updateBeaconLocation beaconID location caller w1
    = (Abort TypeError, w1).
Proof.
  intros Hb Hl Hnobody w1 caller location.
  destruct (changeLeader_by_leader beaconID newLeaderID user w b Hb Hl)
    as [Hb1 Hu1]. fold w1 in Hb1, Hu1.
  unfold Mutation.updateBeaconLocation. run. rewrite Hb1, Hu1. simpl.
  by rewrite Hnobody.
Qed.

Lemma changeLeader_to_nobody_locks_location_witness :
  Mutation.updateBeaconLocation "b1" {| lat := 3; lon := 4 |} alice
    (snd (Mutation.changeLeader "b1" "u9" alice world0))
  = (Abort TypeError, snd (Mutation.changeLeader "b1" "u9" alice world0)).
Proof.
  apply (changeLeader_to_nobody_locks_location "b1" "u9" alice world0 hike).
  - reflexivity.
  - reflexivity.
  - reflexivity.
Defined.

(** ** Mutation.createBeacon and Mutation.joinBeacon together *)

(** X15: a new beacon whose shortcode no stored beacon has can be joined
    with it: [joinBeacon] by a user not among its followers answers the new
    beacon with that user added. *)
Theorem createBeacon_then_joinBeacon (code : string) (oid : ObjectId)
    (beacon : gmap string Val) (user joiner : User.doc) (w w' : World)
    (newBeacon : Beacon.doc) :
  Mutation.createBeacon code oid beacon user w = (Return newBeacon, w') →
  (∀ b, b ∈ Beacons w → Beacon.shortcode b ≠ Beacon.shortcode newBeacon) →
  User.id joiner ∉ Beacon.followers newBeacon →
  ∃ w'',
    Mutation.joinBeacon (Beacon.shortcode newBeacon) joiner w'
    = (Return (Beacon.push_follower newBeacon (User.id joiner)), w'').
Proof.
  intros Hrun Hfresh Hnew.
  unfold Mutation.createBeacon in Hrun.
  destruct (new_Beacon oid _) as [nb|]; [|discriminate].
  revert Hrun. run. intros [= -> <-].
  unfold Mutation.joinBeacon. run.
  rewrite find_app_r.
  2:{ apply find_none_elem. intros b Hb. apply bool_decide_eq_false_2.
      by apply Hfresh. }
  simpl. rewrite bool_decide_eq_true_2; [|done].
  rewrite includes_document. by eexists.
Qed.

Lemma createBeacon_then_joinBeacon_witness :
  ∃ w'',
    Mutation.joinBeacon "QWERTY" carol
      (snd (Mutation.createBeacon "QWERTY" "b2" picnic alice world0))
    = (Return {| Beacon.id := "b2"; Beacon.shortcode := "QWERTY";
                 Beacon.leader := "u1"; Beacon.followers := ["u3"];
                 Beacon.location := {| lat := 5; lon := 7 |};
                 Beacon.landmarks := []; Beacon.expiresAt := 5000 |}, w'').
Proof.
  apply (createBeacon_then_joinBeacon "QWERTY" "b2" picnic alice carol world0
           _ {| Beacon.id := "b2"; Beacon.shortcode := "QWERTY";
                Beacon.leader := "u1"; Beacon.followers := [];
                Beacon.location := {| lat := 5; lon := 7 |};
                Beacon.landmarks := []; Beacon.expiresAt := 5000 |}).
  - vm_compute. reflexivity.
  - intros b Hb. apply list_elem_of_In in Hb. simpl in Hb.
    destruct Hb as [<-|[]]. discriminate.
  - intros Hin. apply list_elem_of_In in Hin. destruct Hin.
Defined.

(** ** Mutation.createLandmark *)

(** X16: [createLandmark] is refused with "User should be part of beacon."
    when no beacon has the id, and when the caller is neither among the
    followers of the beacon nor its leader; nothing is stored. *)
Theorem createLandmark_refuses_outsiders `{LandmarkSchema} (oid : ObjectId)
    (landmark : gmap string Val) (beaconID : ObjectId) (user : User.doc)
    (s : Store) :
  findById Beacon.id beaconID (Beacons (world s)) = None
  ∨ (∃ b, findById Beacon.id beaconID (Beacons (world s)) = Some b
          ∧ (User.id user ∉ Beacon.followers b)
          ∧ Beacon.leader b ≠ User.id user) →
  createLandmark oid landmark beaconID user s
  = (Abort (UserInputError "User should be part of beacon."), s).
Proof.
  unfold createLandmark. intros [->|(b & -> & Hf & Hl)]; [done|].
  rewrite bool_decide_eq_false_2; [|done].
  by rewrite bool_decide_eq_true_2.
Qed.

Lemma createLandmark_refuses_outsiders_witness :
  @createLandmark stub_landmarks "l1"
    {[ "location" := VLocation {| lat := 1; lon := 1 |} ]} "b1" carol
    {| world := world0; Landmarks := [] |}
  = (Abort (UserInputError "User should be part of beacon."),
     {| world := world0; Landmarks := [] |}).
Proof.
  apply (@createLandmark_refuses_outsiders stub_landmarks).
  right. exists hike. split; [reflexivity|]. split; [|discriminate].
  intros Hin. apply list_elem_of_In in Hin. simpl in Hin.
  destruct Hin as [Hin|[]]. discriminate Hin.
Defined.

(** X17: for a follower or the leader of the stored beacon, when the
    Landmark model accepts the fields, [createLandmark] answers the new
    landmark, which has the identifier drawn for it; the landmark is added
    to the stored ones, the beacon has its identifier at the end of its
    landmarks and is otherwise unchanged, and users, other beacons and the
    publish log are untouched. *)
Theorem createLandmark_by_member `{LandmarkSchema} (oid : ObjectId)
    (landmark : gmap string Val) (beaconID : ObjectId) (user : User.doc)
    (s : Store) (b : Beacon.doc) (l : Landmark) :
  findById Beacon.id beaconID (Beacons (world s)) = Some b →
  User.id user ∈ Beacon.followers b ∨ Beacon.leader b = User.id user →
  new_Landmark oid (landmark ∪ {[ "createdBy" := VString (User.id user) ]})
  = Some l →
  ∃ s',
    createLandmark oid landmark beaconID user s = (Return l, s')
    ∧ Landmark_id l = oid
    ∧ Landmarks s' = (Landmarks s ++ [l])%list
    ∧ findById Beacon.id beaconID (Beacons (world s'))
      = Some (Beacon_push_landmark b oid)
    ∧ (∀ i, i ≠ beaconID →
            findById Beacon.id i (Beacons (world s'))
            = findById Beacon.id i (Beacons (world s)))
    ∧ Users (world s') = Users (world s)
    ∧ published (world s') = published (world s).
Proof.
  intros Hb Hmember Hl. pose proof (findById_key _ _ _ _ Hb) as Hid.
  pose proof (new_Landmark_id _ _ _ Hl) as Hoid.
  unfold createLandmark. rewrite Hb.
  assert (Hguard : negb (bool_decide (User.id user ∈ Beacon.followers b))
                   && bool_decide (Beacon.leader b ≠ User.id user) = false).
  { destruct Hmember as [Hf|Hl'].
    - by rewrite (bool_decide_eq_true_2 _ Hf).
    - rewrite (bool_decide_eq_false_2 (Beacon.leader b ≠ User.id user));
        [by rewrite andb_false_r|]. by intros []. }
  rewrite Hguard, Hl, Hoid. eexists. split; [reflexivity|]. simpl.
  split; [done|]. split; [done|].
  assert (Hid' : Beacon.id (Beacon_push_landmark b oid) = beaconID) by done.
  split; [|split; [|done]].
  - rewrite <- Hid' in Hb |- *. by eapply findById_replace_eq.
  - intros i Hi. apply findById_replace_ne. simpl. by rewrite Hid.
Qed.

Lemma createLandmark_by_member_witness :
  ∃ s',
    @createLandmark stub_landmarks "l1"
      {[ "location" := VLocation {| lat := 1; lon := 1 |} ]} "b1" bob
      {| world := world0; Landmarks := [] |}
    = (Return ("l1",
               {[ "location" := VLocation {| lat := 1; lon := 1 |} ]}
               ∪ {[ "createdBy" := VString "u2" ]}), s')
    ∧ findById Beacon.id "b1" (Beacons (world s'))
      = Some (Beacon_push_landmark hike "l1").
Proof.
  destruct (@createLandmark_by_member stub_landmarks "l1"
              {[ "location" := VLocation {| lat := 1; lon := 1 |} ]} "b1" bob
              {| world := world0; Landmarks := [] |} hike
              ("l1", {[ "location" := VLocation {| lat := 1; lon := 1 |} ]}
                     ∪ {[ "createdBy" := VString "u2" ]}))
    as (s' & Hrun & _ & _ & Hfind & _).
  - reflexivity.
  - left. apply list_elem_of_In. simpl. left. reflexivity.
  - vm_compute. reflexivity.
  - exists s'. split; assumption.
Defined.

(** ** Collections that grow *)

Section GrowFacts.
Context {D : Type} (key : D → ObjectId) (R : D → D → Prop).
Context (R_refl : ∀ x, R x x) (R_trans : ∀ x y z, R x y → R y z → R x z).

Lemma Forall2_same c : Forall2 R c c.
Proof. induction c; by constructor. Qed.

Lemma grows_same c : grows R c c.
Proof. exists c, []. split; [by rewrite app_nil_r|apply Forall2_same]. Qed.

Lemma grows_then c1 c2 c3 : grows R c1 c2 → grows R c2 c3 → grows R c1 c3.
Proof.
  intros (k1 & a1 & -> & H1) (k2 & a2 & -> & H2).
  apply Forall2_app_inv_l in H2 as (k2a & k2b & Ha & Hb & ->).
  exists k2a, (k2b ++ a2)%list. split; [by rewrite app_assoc|].
  by eapply Forall2_trans.
Qed.

Lemma grows_insert c d : grows R c (c ++ [d]).
Proof. exists c, [d]. split; [done|apply Forall2_same]. Qed.

(** A save replaces the document found under the identifier. *)
Lemma grows_replace c d :
  (∀ x, findById key (key d) c = Some x → R x d) →
  grows R c (replace key d c).
Proof.
  intros Hfound. exists (replace key d c), []. split; [by rewrite app_nil_r|].
  unfold findById in Hfound.
  induction c as [|x c IH]; simpl in *; [constructor|].
  destruct (bool_decide (key x = key d)).
  - constructor; [by apply Hfound|apply Forall2_same].
  - constructor; [done|by apply IH].
Qed.

Lemma replace_keys c d : key <$> replace key d c = key <$> c.
Proof.
  induction c as [|x c IH]; simpl; [done|].
  destruct (bool_decide (key x = key d)) eqn:Hx; simpl; [|by f_equal].
  apply bool_decide_eq_true in Hx. by rewrite Hx.
Qed.

(** What a save keeps of the document it replaces, it keeps of the
    collection. *)
Lemma replace_omap {B} (f : D → option B) c d :
  (∀ x, findById key (key d) c = Some x → f x = f d) →
  omap f (replace key d c) = omap f c.
Proof.
  unfold findById. intros Hfound.
  induction c as [|x c IH]; [done|].
  simpl in Hfound |- *. destruct (bool_decide (key x = key d)).
  - change (omap f ([d] ++ c)%list = omap f ([x] ++ c)%list).
    rewrite !omap_app.
    f_equal. simpl. by rewrite (Hfound x eq_refl).
  - specialize (IH Hfound).
    change (omap f ([x] ++ replace key d c)%list = omap f ([x] ++ c)%list).
    rewrite !omap_app. by rewrite IH.
Qed.

Lemma findById_None_fresh i c : findById key i c = None → i ∉ key <$> c.
Proof.
  unfold findById. intros Hnone Hin.
  apply list_elem_of_fmap in Hin as (x & -> & Hx).
  apply list_elem_of_In in Hx.
  pose proof (find_none _ _ Hnone x Hx) as Hfalse. simpl in Hfalse.
  by rewrite bool_decide_eq_true_2 in Hfalse.
Qed.

(** With unique identifiers, a stored document is the one found under its
    identifier. *)
Lemma findById_unique c x :
  NoDup (key <$> c) → x ∈ c → findById key (key x) c = Some x.
Proof.
  unfold findById. induction c as [|y c IH]; simpl; [by inversion 2|].
  intros Hnd Hx. apply NoDup_cons in Hnd as [Hy Hnd].
  destruct (bool_decide (key y = key x)) eqn:Hk.
  - apply bool_decide_eq_true in Hk.
    apply elem_of_cons in Hx as [->|Hx]; [done|].
    exfalso. apply Hy. rewrite Hk. apply list_elem_of_fmap. by exists x.
  - apply bool_decide_eq_false in Hk.
    apply elem_of_cons in Hx as [->|Hx]; [done|]. by apply IH.
Qed.

(** A query that only looks at what evolution keeps goes on finding the
    same document, evolved. *)
Lemma find_grows (P : D → bool) c c' x :
  (∀ a b, R a b → P a = P b) →
  grows R c c' → List.find P c = Some x →
  ∃ x', List.find P c' = Some x' ∧ R x x'.
Proof.
  intros HP (kept & added & -> & Hkept) Hx.
  cut (∃ x', List.find P kept = Some x' ∧ R x x').
  { intros (x' & Hx' & HR). exists x'. split; [by apply find_app_l|done]. }
  clear added. revert Hx. induction Hkept as [|a b c kept Hab Hk IH]; simpl;
    [done|].
  rewrite <- (HP a b Hab). destruct (P a); [|done].
  intros [= <-]. by exists b.
Qed.
End GrowFacts.

Lemma Beacon_evolves_refl b : Beacon_evolves b b.
Proof. by repeat split. Qed.

Lemma Beacon_evolves_trans b1 b2 b3 :
  Beacon_evolves b1 b2 → Beacon_evolves b2 b3 → Beacon_evolves b1 b3.
Proof.
  intros (?&?&?&?&?) (?&?&?&?&?).
  repeat split; try congruence; by etrans.
Qed.

Lemma User_evolves_refl u : User_evolves u u.
Proof. by repeat split. Qed.

Lemma User_evolves_trans u1 u2 u3 :
  User_evolves u1 u2 → User_evolves u2 u3 → User_evolves u1 u3.
Proof.
  intros (?&?&?&?&?) (?&?&?&?&?).
  repeat split; try congruence; by etrans.
Qed.

(** ** Runs of the server *)

Lemma Users_step_keeps (c c' : list User.doc) :
  Users_step c c' →
  NoDup (User.id <$> c) → NoDup (omap User.email c) →
  NoDup (User.id <$> c') ∧ NoDup (omap User.email c')
  ∧ grows User_evolves c c'.
Proof.
  intros [->|[(d & x & Hx & Hev & ->)|(d & Hfresh & Hemail & ->)]] Hid Hem.
  - split; [done|]. split; [done|].
    apply grows_same, User_evolves_refl.
  - rewrite replace_keys.
    rewrite (replace_omap User.id User.email).
    2:{ intros y Hy. rewrite Hx in Hy. injection Hy as <-.
        by destruct Hev as (_ & _ & -> & _). }
    split; [done|]. split; [done|].
    apply grows_replace; [apply User_evolves_refl|].
    intros y Hy. rewrite Hx in Hy. by injection Hy as <-.
  - split; [|split].
    + rewrite fmap_app. apply NoDup_app. split; [done|]. split.
      * intros i Hi Hi'. apply list_elem_of_singleton in Hi' as ->.
        by apply (findById_None_fresh User.id) in Hfresh.
      * apply NoDup_singleton.
    + rewrite omap_app. apply NoDup_app. split; [done|]. split.
      * intros e He He'. apply list_elem_of_omap in He as (u & Hu & Hue).
        apply list_elem_of_omap in He' as (d' & Hd' & Hde).
        apply list_elem_of_singleton in Hd' as ->.
        apply (Hemail u Hu); [by eexists|congruence].
      * simpl. destruct (User.email d); [apply NoDup_singleton|constructor].
    + apply grows_insert, User_evolves_refl.
Qed.

Lemma Beacons_step_keeps (c c' : list Beacon.doc) :
  Beacons_step c c' →
  NoDup (Beacon.id <$> c) →
  NoDup (Beacon.id <$> c') ∧ grows Beacon_evolves c c'.
Proof.
  intros [->|[(d & x & Hx & Hev & ->)|(d & Hfresh & ->)]] Hid.
  - split; [done|]. apply grows_same, Beacon_evolves_refl.
  - rewrite replace_keys. split; [done|].
    apply grows_replace; [apply Beacon_evolves_refl|].
    intros y Hy. rewrite Hx in Hy. by injection Hy as <-.
  - split; [|apply grows_insert, Beacon_evolves_refl].
    rewrite fmap_app. apply NoDup_app. split; [done|]. split.
    + intros i Hi Hi'. apply list_elem_of_singleton in Hi' as ->.
      by apply (findById_None_fresh Beacon.id) in Hfresh.
    + apply NoDup_singleton.
Qed.

Lemma keeps_intro (w : World) (us : list User.doc) (bs : list Beacon.doc)
    (ps : list (string * Payload)) :
  unique_keys w →
  Users_step (Users w) us → Beacons_step (Beacons w) bs →
  published w `prefix_of` ps →
  keeps w {| Users := us; Beacons := bs; published := ps |}.
Proof.
  intros (Hu & Hb & He) Hus Hbs Hps.
  destruct (Users_step_keeps _ _ Hus Hu He) as (? & ? & ?).
  destruct (Beacons_step_keeps _ _ Hbs Hb) as (? & ?).
  by repeat split.
Qed.

Lemma keeps_same (w : World) : unique_keys w → keeps w w.
Proof.
  intros Hw. destruct w as [us bs ps].
  apply keeps_intro; [done|by left|by left|done].
Qed.

(** Saving the caller's document with a beacon pushed, or a location set,
    is a save of a stored user evolved. *)
Lemma Users_step_save (c : list User.doc) (user d : User.doc) :
  findById User.id (User.id user) c = Some user →
  User_evolves user d →
  Users_step c (replace User.id d c).
Proof.
  intros Hu Hev. right. left. exists d, user. split; [|done].
  destruct Hev as (-> & _). done.
Qed.

Lemma Beacons_step_save (c : list Beacon.doc) (b d : Beacon.doc) :
  findById Beacon.id (Beacon.id b) c = Some b →
  Beacon_evolves b d →
  Beacons_step c (replace Beacon.id d c).
Proof.
  intros Hb Hev. right. left. exists d, b. split; [|done].
  destruct Hev as (-> & _). done.
Qed.

Lemma findById_self {D : Type} (key : D → ObjectId) i c d :
  findById key i c = Some d → findById key (key d) c = Some d.
Proof. intros Hd. by rewrite (findById_key _ _ _ _ Hd). Qed.

(** One request keeps what a run keeps. *)
Lemma step_keeps `{LandmarkSchema} (w w' : World) :
  unique_keys w → step w w' → keeps w w'.
Proof.
  intros Hw Hstep. pose proof Hw as (HU & HB & HE).
  destruct Hstep as
    [h oid name credentials w Hfresh
    |code oid beacon user w Hu Hfresh
    |shortcode user w Hu
    |oid landmark beaconID user s Hu
    |id location user w Hu
    |id location user w Hu
    |beaconID newLeaderID user w Hu].
  - (* register *)
    unfold register. run.
    assert (Hadd : ∀ d,
      User.id d = oid → User.email d = cred_email <$> credentials →
      (∀ c, credentials = Some c →
            ∀ u, u ∈ Users w → User.email u ≠ Some (cred_email c)) →
      keeps w {| Users := Users w ++ [d]; Beacons := Beacons w;
                 published := published w |}).
    { intros d Hd Hde Hfree. apply keeps_intro; [done| |by left|done].
      right. right. exists d. rewrite Hd. split; [exact Hfresh|].
      split; [|done]. rewrite Hde. intros u Hu' [em Hem].
      destruct credentials as [c|]; [|done]. by apply (Hfree c). }
    destruct credentials as [c|]; simpl.
    + destruct (List.find _ (Users w)) as [found|] eqn:Hfound.
      * rewrite bool_decide_eq_true_2; [|by eexists]. by apply keeps_same.
      * rewrite bool_decide_eq_false_2; [|by intros [? ?]]. simpl.
        apply Hadd; [done|done|]. intros c' [= <-] u Hu' He.
        apply list_elem_of_In in Hu'.
        pose proof (find_none _ _ Hfound u Hu') as Hfalse. simpl in Hfalse.
        by rewrite bool_decide_eq_true_2 in Hfalse.
    + by apply Hadd.
  - (* createBeacon *)
    unfold Mutation.createBeacon.
    destruct (new_Beacon oid _) as [nb|] eqn:Hnb; run; [|by apply keeps_same].
    apply new_Beacon_fields in Hnb as (_ & _ & _ & _ & Hid).
    apply keeps_intro; [done| | |done].
    + apply (Users_step_save _ user); [done|].
      repeat split. by apply prefix_app_r.
    + right. right. exists nb. by rewrite Hid.
  - (* joinBeacon *)
    unfold Mutation.joinBeacon. run.
    destruct (List.find _ (Beacons w)) as [b|] eqn:Hb; [|by apply keeps_same].
    rewrite includes_document.
    simpl. apply keeps_intro; [done| | |by apply prefix_app_r].
    + apply (Users_step_save _ user); [done|].
      repeat split. by apply prefix_app_r.
    + apply (Beacons_step_save _ b).
      * apply findById_unique; [done|].
        apply find_some in Hb as [Hb _]. by apply list_elem_of_In.
      * repeat split; [by apply prefix_app_r|done].
  - (* createLandmark *)
    unfold createLandmark.
    destruct (findById Beacon.id beaconID (Beacons (world s))) as [b|] eqn:Hb;
      [|by apply keeps_same].
    destruct (negb _ && _); [by apply keeps_same|].
    destruct (new_Landmark oid _) as [l|]; [|by apply keeps_same].
    simpl. apply keeps_intro; [done|by left| |done].
    apply (Beacons_step_save _ b); [by eapply findById_self|].
    repeat split; [done|by apply prefix_app_r].
  - (* updateBeaconLocation *)
    unfold Mutation.updateBeaconLocation. run.
    destruct (findById Beacon.id id (Beacons w)) as [b|] eqn:Hb;
      [|by apply keeps_same].
    destruct (findById User.id (Beacon.leader b) (Users w)) as [l|];
      [|by apply keeps_same].
    destruct (bool_decide _); [by apply keeps_same|].
    simpl. apply keeps_intro; [done|by left| |by apply prefix_app_r].
    apply (Beacons_step_save _ b); [by eapply findById_self|].
    by repeat split.
  - (* updateUserLocation *)
    unfold Mutation.updateUserLocation. run.
    destruct (findById Beacon.id id (Beacons w)) as [b|];
      [|by apply keeps_same].
    simpl. apply keeps_intro; [done| |by left|by apply prefix_app_r].
    apply (Users_step_save _ user); [done|]. by repeat split.
  - (* changeLeader *)
    unfold Mutation.changeLeader. run.
    destruct (findById Beacon.id beaconID (Beacons w)) as [b|] eqn:Hb;
      [|by apply keeps_same].
    destruct (bool_decide _); [by apply keeps_same|].
    simpl. apply keeps_intro; [done|by left| |done].
    apply (Beacons_step_save _ b); [by eapply findById_self|].
    by repeat split.
Qed.

Lemma keeps_then (w1 w2 w3 : World) : keeps w1 w2 → keeps w2 w3 → keeps w1 w3.
Proof.
  intros (_ & Hb & Hu & Hp) (Hk & Hb' & Hu' & Hp').
  split; [done|]. split; [|split].
  - eapply grows_then; [apply Beacon_evolves_trans|done..].
  - eapply grows_then; [apply User_evolves_trans|done..].
  - by etrans.
Qed.

Lemma run_keeps `{LandmarkSchema} (w w' : World) :
  unique_keys w → rtc step w w' → keeps w w'.
Proof.
  intros Hw Hrun. induction Hrun as [w|w w1 w' Hstep Hrun IH].
  - by apply keeps_same.
  - pose proof (step_keeps _ _ Hw Hstep) as Hk.
    eapply keeps_then; [exact Hk|]. apply IH. by destruct Hk.
Qed.

Lemma unique_keys_world0 : unique_keys world0.
Proof.
  repeat split; apply (bool_decide_unpack _); vm_compute; exact I.
Qed.

(** X18: however many requests are served, identifiers stay unique among
    the users and among the beacons, and no two users have the same email:
    [register] is the only way in for an email and it refuses a known
    one. *)
Theorem run_keeps_identifiers_and_emails_unique `{LandmarkSchema}
    (w w' : World) :
  unique_keys w → rtc step w w' → unique_keys w'.
Proof. intros Hw Hrun. by destruct (run_keeps w w' Hw Hrun). Qed.

Lemma run_keeps_identifiers_and_emails_unique_witness :
  unique_keys
    (snd (register (λ pw, "hash:" ++ pw) "u4" "Dave"
            (Some {| cred_email := "d@e.org"; cred_password := "secret" |})
            world0)).
Proof.
  apply (@run_keeps_identifiers_and_emails_unique stub_landmarks world0).
  - exact unique_keys_world0.
  - apply rtc_once. by apply step_register.
Defined.

(** X19: nothing is ever deleted or moved. After any run, every beacon and
    every user that was stored is still stored, at the same place; a beacon
    has kept its identifier, shortcode and expiry, and its followers and
    landmarks have only been added to; a user has kept its identifier,
    name, email and password hash, and its beacons have only been added
    to; and everything that was published still is, followed by what was
    published since. *)
Theorem run_keeps_documents `{LandmarkSchema} (w w' : World) :
  unique_keys w → rtc step w w' →
  grows Beacon_evolves (Beacons w) (Beacons w')
  ∧ grows User_evolves (Users w) (Users w')
  ∧ published w `prefix_of` published w'.
Proof. intros Hw Hrun. by destruct (run_keeps w w' Hw Hrun) as (_ & ?). Qed.

Lemma run_keeps_documents_witness :
  grows Beacon_evolves (Beacons world0)
    (Beacons (snd (Mutation.joinBeacon "ABCDEF" carol world0))).
Proof.
  apply (@run_keeps_documents stub_landmarks world0).
  - exact unique_keys_world0.
  - apply rtc_once. by apply step_joinBeacon.
Defined.

(** X14: a new beacon whose shortcode is that of a beacon stored before it,
    expired or not, can never be joined with it. After the [createBeacon]
    and any further run of requests, the shortcode resolves to the earlier
    beacon, evolved, and every [joinBeacon] with it that succeeds, first or
    repeated, by whatever caller, answers the earlier beacon with the
    caller added, not the new one. *)
Theorem createBeacon_shadowed_by_earlier_shortcode `{LandmarkSchema}
    (code : string) (oid : ObjectId) (beacon : gmap string Val)
    (user : User.doc) (w w1 w2 : World) (newBeacon old : Beacon.doc) :
  unique_keys w →
  findById User.id (User.id user) (Users w) = Some user →
  findById Beacon.id oid (Beacons w) = None →
  Mutation.createBeacon code oid beacon user w = (Return newBeacon, w1) →
  List.find (λ b, bool_decide (Beacon.shortcode b = Beacon.shortcode newBeacon))
            (Beacons w) = Some old →
  rtc step w1 w2 →
  ∃ old2,
    List.find
      (λ b, bool_decide (Beacon.shortcode b = Beacon.shortcode newBeacon))
      (Beacons w2) = Some old2
    ∧ Beacon_evolves old old2
    ∧ Beacon.id old2 ≠ Beacon.id newBeacon
    ∧ ∀ joiner joined w3,
        Mutation.joinBeacon (Beacon.shortcode newBeacon) joiner w2
        = (Return joined, w3) →
        joined = Beacon.push_follower old2 (User.id joiner).
Proof.
  intros Hw Hu Hfresh Hrun Hold Hsteps.
  pose proof (step_keeps w _ Hw (step_createBeacon code oid beacon user w
                                   Hu Hfresh)) as Hk.
  rewrite Hrun in Hk. simpl in Hk. destruct Hk as (Hw1 & _).
  apply createBeacon_returned in Hrun as [Hnew Hstore].
  apply new_Beacon_fields in Hnew as (_ & _ & _ & _ & Hid).
  assert (Hold1 : List.find
                    (λ b, bool_decide
                            (Beacon.shortcode b = Beacon.shortcode newBeacon))
                    (Beacons w1) = Some old).
  { rewrite Hstore. by apply find_app_l. }
  destruct (run_keeps w1 w2 Hw1 Hsteps) as (_ & Hgrow & _).
  destruct (find_grows Beacon_evolves
              (λ b, bool_decide
                      (Beacon.shortcode b = Beacon.shortcode newBeacon))
              _ _ _
              ltac:(intros ?? (_ & Hsc & _); simpl; by rewrite Hsc)
              Hgrow Hold1) as (old2 & Hold2 & Hev).
  exists old2. split; [done|]. split; [done|]. split.
  - destruct Hev as (-> & _). rewrite Hid. intros Heq.
    apply find_some in Hold as [Hin _]. apply list_elem_of_In in Hin.
    apply (findById_None_fresh Beacon.id) in Hfresh. apply Hfresh.
    rewrite <- Heq. apply list_elem_of_fmap. by exists old.
  - intros joiner joined w3.
    rewrite (joinBeacon_accepts _ _ _ _ Hold2). by intros [= <- _].
Qed.

Lemma createBeacon_shadowed_by_earlier_shortcode_witness :
  ∃ old2,
    List.find (λ b, bool_decide (Beacon.shortcode b = "ABCDEF"))
      (Beacons (snd (Mutation.joinBeacon "ABCDEF" carol
                       (snd (Mutation.createBeacon "ABCDEF" "b2" picnic alice
                               world0)))))
    = Some old2
    ∧ Beacon.id old2 ≠ "b2".
Proof.
  destruct (@createBeacon_shadowed_by_earlier_shortcode stub_landmarks
              "ABCDEF" "b2" picnic alice world0
              (snd (Mutation.createBeacon "ABCDEF" "b2" picnic alice world0))
              (snd (Mutation.joinBeacon "ABCDEF" carol
                      (snd (Mutation.createBeacon "ABCDEF" "b2" picnic alice
                              world0))))
              {| Beacon.id := "b2"; Beacon.shortcode := "ABCDEF";
                 Beacon.leader := "u1"; Beacon.followers := [];
                 Beacon.location := {| lat := 5; lon := 7 |};
                 Beacon.landmarks := []; Beacon.expiresAt := 5000 |}
              hike)
    as (old2 & Hfind & _ & Hid & _).
  - exact unique_keys_world0.
  - reflexivity.
  - reflexivity.
  - reflexivity.
  - reflexivity.
  - apply rtc_once. by apply step_joinBeacon.
  - exists old2. split; assumption.
Defined.

(** [login] is the guard of line 63, the lookup of line 66 and the rest. *)
Lemma login_as_found `{Externals} (id : option string)
    (credentials : option Credentials) (w : World) :
  Mutation.login id credentials w
  = if negb (truthy id) && negb (bool_decide (is_Some credentials))
    then (Abort (UserInputError "One of ID and credentials required"), w)
    else login_found credentials
           (if truthy id then findById User.id (default "" id) (Users w)
            else List.find
                   (λ u, bool_decide
                           (User.email u = cred_email <$> credentials))
                   (Users w)) w.
Proof.
  unfold Mutation.login, login_found.
  destruct (negb (truthy id) && _); [done|].
  unfold mbind at 1, resolver_bind at 1.
  destruct (truthy id); [unfold User_findById|unfold User_findOne_email];
    by destruct (List.find _ _) || destruct (findById _ _ _).
Qed.

(** The rest of [login] looks at the identifier, the email and the hash of
    the user, which evolution keeps. *)
Lemma login_found_evolves `{Externals} (credentials : option Credentials)
    (u u' : User.doc) (w w' : World) (t : Token) :
  User_evolves u u' →
  login_found credentials (Some u) w = (Return t, w) →
  login_found credentials (Some u') w' = (Return t, w').
Proof.
  intros (Hid & _ & Hem & Hpw & _). unfold login_found.
  rewrite Hid, Hem, Hpw.
  destruct (truthy (User.email u) && _); [discriminate|]. run.
  destruct credentials as [c|]; simpl.
  - destruct (bool_decide _); simpl; [|discriminate].
    destruct (User.password u); simpl; [|discriminate].
    destruct (bcrypt_compare _ _); [|discriminate]. by intros [= <-].
  - by intros [= <-].
Qed.

(** X21: a login that works keeps working. If [login] issues a token for
    an identifier or for credentials, then after any run of requests the
    same call issues the same token: no request changes a user's
    identifier, email or password hash, removes a user, or puts another
    user with that email before it. *)
Theorem login_keeps_working `{Externals} `{LandmarkSchema}
    (id : option string) (credentials : option Credentials)
    (w w' : World) (t : Token) :
  unique_keys w →
  Mutation.login id credentials w = (Return t, w) →
  rtc step w w' →
  Mutation.login id credentials w' = (Return t, w').
Proof.
  intros Hw Hlogin Hrun.
  destruct (run_keeps w w' Hw Hrun) as (_ & _ & Hgrow & _).
  rewrite login_as_found in Hlogin |- *.
  destruct (negb (truthy id) && _); [discriminate|].
  destruct (truthy id).
  - unfold findById in *.
    destruct (List.find _ (Users w)) as [u|] eqn:Hu; [|discriminate].
    destruct (find_grows User_evolves
                (λ d, bool_decide (User.id d = default "" id)) _ _ _
                ltac:(intros ?? (Hid & _); simpl; by rewrite Hid) Hgrow Hu)
      as (u' & -> & Hev).
    by eapply login_found_evolves.
  - destruct (List.find _ (Users w)) as [u|] eqn:Hu; [|discriminate].
    destruct (find_grows User_evolves
                (λ u, bool_decide (User.email u = cred_email <$> credentials))
                _ _ _
                ltac:(intros ?? (_ & _ & Hem & _); simpl; by rewrite Hem)
                Hgrow Hu) as (u' & -> & Hev).
    by eapply login_found_evolves.
Qed.

Lemma login_keeps_working_witness :
  @Mutation.login stub (Some "u2") None
    (snd (Mutation.updateUserLocation "b1" {| lat := 3; lon := 4 |} bob world0))
  = (Return {| anon := true; claim_email := None; subject := "u2";
               expiresIn := "7d" |},
     snd (Mutation.updateUserLocation "b1" {| lat := 3; lon := 4 |} bob world0)).
Proof.
  apply (@login_keeps_working stub stub_landmarks (Some "u2") None world0).
  - exact unique_keys_world0.
  - reflexivity.
  - apply rtc_once. by apply step_updateUserLocation.
Defined.

(** ** What is published *)

(** One request publishes at most one payload, and a payload published on
    "BEACON_LOCATION" has no [userLocation] field. *)
Lemma step_publishes `{LandmarkSchema} (w w' : World) :
  step w w' →
  published w' = published w
  ∨ ∃ topic p,
      published w' = (published w ++ [(topic, p)])%list
      ∧ (topic = "BEACON_LOCATION" → userLocation p = None).
Proof.
  intros Hstep.
  destruct Hstep as
    [h oid name credentials w Hfresh
    |code oid beacon user w Hu Hfresh
    |shortcode user w Hu
    |oid landmark beaconID user s Hu
    |id location user w Hu
    |id location user w Hu
    |beaconID newLeaderID user w Hu].
  - left. unfold register. run. destruct credentials as [c|]; simpl; [|done].
    by destruct (bool_decide _).
  - left. unfold Mutation.createBeacon. by destruct (new_Beacon oid _); run.
  - unfold Mutation.joinBeacon. run.
    destruct (List.find _ (Beacons w)) as [b|]; [|by left].
    rewrite includes_document. right. by eexists _, _.
  - left. unfold createLandmark.
    destruct (findById Beacon.id beaconID (Beacons (world s))) as [b|];
      [|done].
    destruct (negb _ && _); [done|]. by destruct (new_Landmark oid _).
  - unfold Mutation.updateBeaconLocation. run.
    destruct (findById Beacon.id id (Beacons w)) as [b|]; [|by left].
    destruct (findById User.id (Beacon.leader b) (Users w)) as [l|];
      [|by left].
    destruct (bool_decide _); [by left|]. right. by eexists _, _.
  - unfold Mutation.updateUserLocation. run.
    destruct (findById Beacon.id id (Beacons w)) as [b|]; [|by left].
    right. by eexists _, _.
  - left. unfold Mutation.changeLeader. run.
    destruct (findById Beacon.id beaconID (Beacons w)) as [b|]; [|done].
    by destruct (bool_decide _).
Qed.

(** X22: on a server that starts with nothing published, and whatever
    requests it serves, a [userLocation] subscription is never delivered
    anything, for any beacon and any subscriber. *)
Theorem userLocation_never_delivers `{LandmarkSchema} (w w' : World)
    (id : ObjectId) (subscriber : User.doc) :
  published w = [] →
  rtc step w w' →
  Subscription.userLocation id subscriber (published w') = [].
Proof.
  intros Hempty Hrun. apply userLocation_delivers_nothing.
  assert (Hw : beacon_location_payloads (published w)).
  { rewrite Hempty. intros p Hp. by apply elem_of_nil in Hp. }
  clear Hempty. induction Hrun as [w|w w1 w' Hstep Hrun IH]; [done|].
  apply IH. destruct (step_publishes _ _ Hstep) as [->|(topic & p & -> & Hp)];
    [done|].
  intros q Hq. apply elem_of_app in Hq as [Hq|Hq]; [by apply Hw|].
  apply list_elem_of_singleton in Hq. injection Hq as <- <-. by apply Hp.
Qed.

Lemma userLocation_never_delivers_witness :
  Subscription.userLocation "b1" carol
    (published
       (snd (Mutation.updateUserLocation "b1" {| lat := 3; lon := 4 |}
               bob world0)))
  = [].
Proof.
  apply (@userLocation_never_delivers stub_landmarks world0).
  - reflexivity.
  - apply rtc_once. by apply step_updateUserLocation.
Defined.

(** ** Query.nearbyBeacons, continued *)

(** X23: time only takes beacons away from [nearbyBeacons]: on the same
    store and for the same point, a beacon answered at a later time is
    answered at any earlier time too, and a beacon that has expired at
    some time is answered at no later time. *)
Theorem nearbyBeacons_shrinks_with_time `{Externals} (now later : Z)
    (location : Location) (w : World) (nearby nearby' : list Beacon.doc) :
  (now ≤ later)%Z →
  Query.nearbyBeacons now location w = (Return nearby, w) →
  Query.nearbyBeacons later location w = (Return nearby', w) →
  nearby' ⊆ nearby
  ∧ ∀ b, (Beacon.expiresAt b < now)%Z → b ∉ nearby'.
Proof.
  intros Hle. unfold Query.nearbyBeacons. run.
  rewrite !push_if_near_filter. simpl. intros [= <-] [= <-].
  assert (Hin : ∀ t b,
    b ∈ List.filter
          (λ b, isPointWithinRadius (Beacon.location b) location 1500)
          (List.filter (λ b, (t <=? Beacon.expiresAt b)%Z) (Beacons w))
    ↔ b ∈ Beacons w ∧ (t ≤ Beacon.expiresAt b)%Z
      ∧ isPointWithinRadius (Beacon.location b) location 1500 = true).
  { intros t b. rewrite !list_elem_of_In, !filter_In, Z.leb_le. tauto. }
  split.
  - intros b Hb. apply Hin in Hb as (? & ? & ?). apply Hin.
    repeat split; [done|lia|done].
  - intros b Hexp Hb. apply Hin in Hb as (_ & ? & _). lia.
Qed.

Lemma nearbyBeacons_shrinks_with_time_witness :
  ([] : list Beacon.doc) ⊆ [hike].
Proof.
  apply (@nearbyBeacons_shrinks_with_time stub 1000 3000
           {| lat := 1; lon := 2 |} world0 [hike] []).
  - lia.
  - reflexivity.
  - reflexivity.
Defined.
